(** * Pixabay MCP server: a shallow embedding of [src/index.ts]

    The server is a thin adapter: a tool call carries a name and an argument
    object; the handler checks the configured API key, dispatches on the
    name, builds a query string from the arguments, logs the URL, performs
    one HTTP GET and wraps the answer (or the message of whatever was thrown)
    into a text envelope.

    The embedding follows the TypeScript source function by function.
    JavaScript objects are kept as ordered entry lists with the engine's
    property order, exceptions are an explicit outcome, and the two side
    effects of the code (the diagnostic stream and the network) are logged
    in an explicit world that every step threads through. *)

From stdpp Require Import base decidable option list strings pretty.
From Stdlib Require Import ZArith Lia Ascii String.

Open Scope Z_scope.
Open Scope string_scope.
Open Scope list_scope.

#[local] Arguments String.append : simpl nomatch.
#[local] Set Warnings "-register-all".

(** ** JavaScript values *)

Module Js.

(** An [Error] object; only its [message] is ever read. *)
Record Error : Type := MkError { message : string }.

(** *** Objects

    An object with values in [V] is the list of its own enumerable
    properties in the order [Object.entries] yields them: array-index keys
    first, by ascending number, then the other keys in creation order. *)
Definition Obj (V : Type) : Type := list (string * V).

Definition keys {V} (o : Obj V) : list string := o.*1.

(** An object has no two properties of the same name. *)
Definition wf {V} (o : Obj V) : Prop := NoDup (keys o).

#[global] Instance wf_dec {V} (o : Obj V) : Decision (wf o).
Proof. unfold wf. apply _. Defined.

(** Property read: [o[k]], [None] when [k] is not an own property. *)
Fixpoint get {V} (k : string) (o : Obj V) : option V :=
  match o with
  | [] => None
  | (k', v) :: o' => if String.eqb k' k then Some v else get k o'
  end.

Definition is_digit (c : ascii) : bool :=
  let n := N_of_ascii c in ((48 <=? n) && (n <=? 57))%N.

Fixpoint digits_value (acc : N) (s : string) : option N :=
  match s with
  | EmptyString => Some acc
  | String c s' =>
      if is_digit c
      then digits_value (acc * 10 + (N_of_ascii c - 48))%N s'
      else None
  end.

(** A key is an array index when it is the canonical decimal text of an
    integer in [0, 2^32 - 2]. *)
Definition array_index (k : string) : option N :=
  match k with
  | EmptyString => None
  | String c rest =>
      if (Ascii.eqb c "0" && negb (String.eqb rest ""))%bool then None
      else
        match digits_value 0%N k with
        | Some n => if (n <=? 4294967294)%N then Some n else None
        | None => None
        end
  end.

(** Overwrite the value of an existing property; its position stays. *)
Fixpoint overwrite {V} (k : string) (v : V) (o : Obj V) : Obj V :=
  match o with
  | [] => []
  | (k', v') :: o' =>
      if String.eqb k' k then (k', v) :: o' else (k', v') :: overwrite k v o'
  end.

(** Place a new array-index property among the index keys. *)
Fixpoint insert_index {V} (n : N) (k : string) (v : V) (o : Obj V) : Obj V :=
  match o with
  | [] => [(k, v)]
  | (k', v') :: o' =>
      match array_index k' with
      | Some m =>
          if (m <? n)%N then (k', v') :: insert_index n k v o'
          else (k, v) :: o
      | None => (k, v) :: o
      end
  end.

(** [CreateDataProperty(o, k, v)]: what an object literal, a spread and
    [Object.fromEntries] do for each property. *)
Definition put {V} (k : string) (v : V) (o : Obj V) : Obj V :=
  match get k o with
  | Some _ => overwrite k v o
  | None =>
      match array_index k with
      | Some n => insert_index n k v o
      | None => o ++ [(k, v)]
      end
  end.

(** Copy the entries of [src], in order, onto [base]. *)
Definition assign {V} (base : Obj V) (src : list (string * V)) : Obj V :=
  fold_left (fun o e => put e.1 e.2 o) src base.

(** [Object.entries(o)]. *)
Definition entries {V} (o : Obj V) : list (string * V) := o.

(** [Object.fromEntries(l)]. *)
Definition fromEntries {V} (l : list (string * V)) : Obj V := assign [] l.

(** *** Values

    What a tool argument can hold.  The arguments come out of [JSON.parse]
    and are cast without a check, so a value is any JSON value: null, a
    boolean, a number, a string, an array or a plain object; a missing
    property reads as [undefined].  Strings are held as their UTF-8 bytes.

    A number is given by the decimal that its shortest round-trip text
    denotes: [Number n] is integer-valued, [Decimal m d] is [m / 10^d], and
    [Infinity] is what a literal beyond the range of a double parses to. *)
Inductive Value : Type :=
  | Undefined
  | Null
  | Bool (b : bool)
  | Number (n : Z)
  | Decimal (m : Z) (d : positive)
  | Infinity (negative : bool)
  | Str (s : string)
  | Array (items : list Value)
  | Object (props : list (string * Value)).

(** The values with no parts. *)
Definition scalar (v : Value) : bool :=
  match v with
  | Array _ | Object _ => false
  | _ => true
  end.

Fixpoint zeros (n : nat) : string :=
  match n with
  | O => EmptyString
  | S n' => String "0" (zeros n')
  end.

Fixpoint strip_zeros (s : string) : string :=
  match s with
  | EmptyString => EmptyString
  | String c s' =>
      match strip_zeros s' with
      | EmptyString => if Ascii.eqb c "0" then EmptyString else String c EmptyString
      | t => String c t
      end
  end.

Definition exponent_text (e : Z) : string :=
  (if (e <? 0)%Z then "-" else "+") +:+ pretty (Z.abs e).

(** [Number::toString] for a positive finite number, from its [k]
    significant digits and the place [n] of the decimal point: the number
    is [0.digits * 10^n]. *)
Definition number_text (digits : string) (n : Z) : string :=
  let k := Z.of_nat (String.length digits) in
  if ((k <=? n) && (n <=? 21))%Z then
    digits +:+ zeros (Z.to_nat (n - k))
  else if ((0 <? n) && (n <=? 21))%Z then
    substring 0 (Z.to_nat n) digits +:+ "."
    +:+ substring (Z.to_nat n) (Z.to_nat (k - n)) digits
  else if ((-6 <? n) && (n <=? 0))%Z then
    "0." +:+ zeros (Z.to_nat (- n)) +:+ digits
  else
    match digits with
    | EmptyString => EmptyString
    | String c EmptyString => String c ("e" +:+ exponent_text (n - 1))
    | String c rest => String c ("." +:+ rest +:+ "e" +:+ exponent_text (n - 1))
    end.

(** The text of the number [m / 10^d]. *)
Definition decimal_text (m : Z) (d : Z) : string :=
  let all := pretty (Z.abs m) in
  let digits := strip_zeros all in
  match digits with
  | EmptyString => "0"
  | _ =>
      (if (m <? 0)%Z then "-" else "")
      +:+ number_text digits (Z.of_nat (String.length all) - d)
  end.

(** Below [10^21] an integer prints as its plain decimal digits. *)
Definition integer_text (n : Z) : string :=
  if (Z.abs n <? 10 ^ 21)%Z then pretty n else decimal_text n 0.

(** [String(value)].  It throws for an object that has an own property
    "toString" (which, coming from JSON, is not callable), and for an array
    that holds such an object; [inl] is the error thrown. *)
Fixpoint String_ (v : Value) : Error + string :=
  match v with
  | Undefined => inr "undefined"
  | Null => inr "null"
  | Bool true => inr "true"
  | Bool false => inr "false"
  | Number n => inr (integer_text n)
  | Decimal m d => inr (decimal_text m (Z.pos d))
  | Infinity negative => inr (if negative then "-Infinity" else "Infinity")
  | Str s => inr s
  | Array items =>
      (fix join (l : list Value) : Error + string :=
         match l with
         | [] => inr EmptyString
         | x :: l' =>
             let first :=
               match x with
               | Undefined | Null => inr EmptyString
               | _ => String_ x
               end in
             match first with
             | inl e => inl e
             | inr s =>
                 match l' with
                 | [] => inr s
                 | _ =>
                     match join l' with
                     | inl e => inl e
                     | inr rest => inr (s +:+ "," +:+ rest)
                     end
                 end
             end
         end) items
  | Object props =>
      match get "toString" props with
      | Some _ => inl (MkError "Cannot convert object to primitive value")
      | None => inr "[object Object]"
      end
  end.

End Js.
(** ** The platform's [URLSearchParams]

    [new URLSearchParams(record)] lists the record's properties in order;
    its [toString] is the application/x-www-form-urlencoded serialisation
    of the URL standard, which Node implements.  Strings are sequences of
    UTF-8 bytes, so the percent-encoding works byte by byte. *)

Module URLSearchParams.

Definition t : Type := list (string * string).

Definition of_record (o : Js.Obj string) : t := Js.entries o.

(** Bytes the serialiser leaves as they are: ASCII letters and digits and
    the four characters asterisk, hyphen, full stop and underscore. *)
Definition unreserved (c : ascii) : bool :=
  let n := N_of_ascii c in
  (((48 <=? n) && (n <=? 57)) || ((65 <=? n) && (n <=? 90))
   || ((97 <=? n) && (n <=? 122))
   || (n =? 42) || (n =? 45) || (n =? 46) || (n =? 95))%N.

Definition hex_digit (n : N) : ascii :=
  if (n <? 10)%N then ascii_of_N (48 + n) else ascii_of_N (55 + n).

Definition encode_byte (c : ascii) : string :=
  if unreserved c then String c EmptyString
  else if Ascii.eqb c " " then "+"
  else
    let n := N_of_ascii c in
    String "%" (String (hex_digit (n / 16)) (String (hex_digit (n mod 16)) EmptyString)).

Fixpoint encode (s : string) : string :=
  match s with
  | EmptyString => EmptyString
  | String c s' => encode_byte c +:+ encode s'
  end.

Definition pair_text (e : string * string) : string :=
  encode e.1 +:+ "=" +:+ encode e.2.

Fixpoint join (sep : string) (l : list string) : string :=
  match l with
  | [] => ""
  | [x] => x
  | x :: l' => x +:+ sep +:+ join sep l'
  end.

Definition toString (p : t) : string := join "&" (pair_text <$> p).

(** The way back, [new URLSearchParams(text)]: cut the text at every
    ampersand, each piece at its first equals sign, and undo the encoding
    of both halves. *)
Definition hex_value (c : ascii) : option N :=
  let n := N_of_ascii c in
  if ((48 <=? n) && (n <=? 57))%N then Some (n - 48)%N
  else if ((65 <=? n) && (n <=? 70))%N then Some (n - 55)%N
  else if ((97 <=? n) && (n <=? 102))%N then Some (n - 87)%N
  else None.

Fixpoint decode (s : string) : string :=
  match s with
  | EmptyString => EmptyString
  | String c s' =>
      if Ascii.eqb c "+" then String " " (decode s')
      else if Ascii.eqb c "%" then
        match s' with
        | String h1 (String h2 rest) =>
            match hex_value h1, hex_value h2 with
            | Some a, Some b => String (ascii_of_N (a * 16 + b)) (decode rest)
            | _, _ => String c (decode s')
            end
        | _ => String c (decode s')
        end
      else String c (decode s')
  end.

Fixpoint split (sep : ascii) (s : string) : list string :=
  match s with
  | EmptyString => [EmptyString]
  | String c s' =>
      if Ascii.eqb c sep then EmptyString :: split sep s'
      else
        match split sep s' with
        | x :: l => String c x :: l
        | [] => [String c EmptyString]
        end
  end.

Fixpoint cut (sep : ascii) (s : string) : string * string :=
  match s with
  | EmptyString => (EmptyString, EmptyString)
  | String c s' =>
      if Ascii.eqb c sep then (EmptyString, s')
      else let '(a, b) := cut sep s' in (String c a, b)
  end.

Definition parse (s : string) : t :=
  (fun piece => let '(a, b) := cut "=" piece in (decode a, decode b))
    <$> filter (fun piece => piece <> EmptyString) (split "&" s).

(** [searchParams.getAll(name)]. *)
Fixpoint getAll (name : string) (p : t) : list string :=
  match p with
  | [] => []
  | (k, v) :: p' =>
      if String.eqb k name then v :: getAll name p' else getAll name p'
  end.

End URLSearchParams.

(** ** Effects: exceptions, the diagnostic stream, the network *)

(** An outbound HTTP request.  [fetch(url)] is called with the URL alone,
    so the header list of every request the code makes is empty. *)
Record Request : Type := { url : string; headers : list (string * string) }.

(** What the code reads of a [Response]: the status line, [text()], and
    [json()] followed by [JSON.stringify(data, null, 2)], which either
    throws (the body is not JSON) or gives the formatted text. *)
Record Response : Type := {
  status : Z;
  statusText : string;
  text_body : string;
  json_pretty : Js.Error + string
}.

(** Modelled from the spec: [response.ok] is a getter of node-fetch, which
    is not under src/; section 7 of the specification calls the failing
    case a non-2xx response. *)
Definition ok (r : Response) : bool :=
  ((200 <=? status r) && (status r <? 300))%Z.

(** A fetch either rejects (DNS, connection refused, ...) or resolves. *)
Inductive FetchResult : Type :=
  | Rejected (e : Js.Error)
  | Fulfilled (r : Response).

(** Everything a call leaves behind: the lines written with
    [console.error] and the requests sent, oldest first. *)
Record World : Type := { stderr : list string; sent : list Request }.

Inductive Outcome (A : Type) : Type :=
  | Return (a : A)
  | Throw (e : Js.Error).
Arguments Return {A} a.
Arguments Throw {A} e.

(** An async function: from the world before to its outcome and the world
    after. *)
Definition Async (A : Type) : Type := World -> Outcome A * World.

Definition ret {A} (a : A) : Async A := fun w => (Return a, w).

Definition throw {A} (e : Js.Error) : Async A := fun w => (Throw e, w).

Definition bind {A B} (m : Async A) (f : A -> Async B) : Async B :=
  fun w =>
    match m w with
    | (Return a, w') => f a w'
    | (Throw e, w') => (Throw e, w')
    end.

Definition try_catch {A} (m : Async A) (handler : Js.Error -> Async A) : Async A :=
  fun w =>
    match m w with
    | (Return a, w') => (Return a, w')
    | (Throw e, w') => handler e w'
    end.

Declare Scope async_scope.
Delimit Scope async_scope with async.
Notation "'await' x <- m ; k" := (bind m (fun x => k))
  (at level 10, x name, m at level 100, k at level 200) : async_scope.
Notation "'then_' m ; k" := (bind m (fun _ => k))
  (at level 10, m at level 100, k at level 200) : async_scope.

Definition console_error (line : string) : Async unit :=
  fun w => (Return tt, {| stderr := stderr w ++ [line]; sent := sent w |}).

(** ** The server *)

Record PixabayConfig : Type := {
  apiKey : string;
  baseUrl : string;
  videosUrl : string
}.

(** The constructor's [this.config]; [env] is [process.env.PIXABAY_API_KEY]. *)
Definition config_of_env (env : option string) : PixabayConfig :=
  {| apiKey := match env with Some k => k | None => "" end;
     baseUrl := "https://pixabay.com/api/";
     videosUrl := "https://pixabay.com/api/videos/" |}.

Record TextContent : Type := { type : string; text : string }.

(** The protocol envelope of a tool result: [{ content: [...] }]. *)
Record CallToolResult : Type := { content : list TextContent }.

Definition text_result (s : string) : CallToolResult :=
  {| content := [ {| type := "text"; text := s |} ] |}.

(** The filter predicate of [searchImages] and [searchVideos]:
    [value !== undefined && value !== null && value !== ""]. *)
Definition kept (v : Js.Value) : bool :=
  match v with
  | Js.Undefined => false
  | Js.Null => false
  | Js.Str s => negb (String.eqb s "")
  | _ => true
  end.

(** [.map(([key, value]) => [key, String(value)])]: one entry after the
    other; the first [String] that throws ends the map. *)
Fixpoint stringify (l : list (string * Js.Value))
  : Js.Error + list (string * string) :=
  match l with
  | [] => inr []
  | (k, v) :: l' =>
      match Js.String_ v with
      | inl e => inl e
      | inr s =>
          match stringify l' with
          | inl e => inl e
          | inr rest => inr ((k, s) :: rest)
          end
      end
  end.

(** [Object.entries(params).filter(...).map(...)]: the entries that pass
    the filter, each value through [String]. *)
Definition kept_entries (params : Js.Obj Js.Value)
  : Js.Error + list (string * string) :=
  stringify (filter (fun e => kept e.2 = true) (Js.entries params)).

(** [new URLSearchParams({ key: this.config.apiKey, ...filteredParams })],
    where [filteredParams] is [Object.fromEntries] of the kept entries. *)
Definition searchParams_of (cfg : PixabayConfig) (l : list (string * string))
  : URLSearchParams.t :=
  let filteredParams := Js.fromEntries l in
  URLSearchParams.of_record
    (Js.assign (Js.put "key" (apiKey cfg) []) (Js.entries filteredParams)).

(** The parameters a search builds from its arguments, or the error a
    [String] threw on the way. *)
Definition searchParams (cfg : PixabayConfig) (params : Js.Obj Js.Value)
  : Js.Error + URLSearchParams.t :=
  match kept_entries params with
  | inl e => inl e
  | inr l => inr (searchParams_of cfg l)
  end.

(** [`${searchParams}`], the text after the question mark. *)
Definition queryString (cfg : PixabayConfig) (params : Js.Obj Js.Value)
  : Js.Error + string :=
  match searchParams cfg params with
  | inl e => inl e
  | inr p => inr (URLSearchParams.toString p)
  end.

Definition api_error (r : Response) : Js.Error :=
  Js.MkError ("Pixabay API error: " +:+ pretty (status r) +:+ " "
              +:+ statusText r +:+ " - " +:+ text_body r).

Section Gateway.

(** The outside world: what the network answers to a request at the time
    the call at hand is made.  Every statement below is about one call and
    holds for every such answer, so nothing is assumed about how the
    upstream's answers depend on earlier traffic. *)
Variable network : Request -> FetchResult.

Definition fetch (u : string) : Async Response :=
  fun w =>
    let rq := {| url := u; headers := [] |} in
    let w' := {| stderr := stderr w; sent := sent w ++ [rq] |} in
    match network rq with
    | Rejected e => (Throw e, w')
    | Fulfilled r => (Return r, w')
    end.

(** The body shared by the two search methods; they differ in the
    endpoint and in the two log prefixes.  Building the query comes first
    and can throw, before anything is logged or sent. *)
Definition search (endpoint request_tag error_tag : string)
    (cfg : PixabayConfig) (params : option (Js.Obj Js.Value))
  : Async CallToolResult :=
  match params with
  | None => throw (Js.MkError "Cannot convert undefined or null to object")
  | Some p =>
      match queryString cfg p with
      | inl e => throw e
      | inr q =>
          let u := endpoint +:+ "?" +:+ q in
          (then_ console_error (request_tag +:+ u) ;
           await response <- fetch u ;
           if negb (ok response) then
             let errorText := text_body response in
             then_ console_error (error_tag +:+ errorText) ;
             throw (api_error response)
           else
             match json_pretty response with
             | inl e => throw e
             | inr data => ret (text_result data)
             end)%async
      end
  end.

Definition searchImages (cfg : PixabayConfig) (params : option (Js.Obj Js.Value))
  : Async CallToolResult :=
  search (baseUrl cfg) "Pixabay API Request: " "Pixabay API Error Response: "
    cfg params.

Definition searchVideos (cfg : PixabayConfig) (params : option (Js.Obj Js.Value))
  : Async CallToolResult :=
  search (videosUrl cfg) "Pixabay Video API Request: "
    "Pixabay Video API Error Response: " cfg params.

(** [params.id]: a [TypeError] when [params] is [undefined], [undefined]
    when the object has no such property. *)
Definition read_id (params : option (Js.Obj Js.Value)) : Async Js.Value :=
  match params with
  | None => throw (Js.MkError "Cannot read properties of undefined (reading 'id')")
  | Some p => ret (default Js.Undefined (Js.get "id" p))
  end.

Definition getImageById (cfg : PixabayConfig) (params : option (Js.Obj Js.Value))
  : Async CallToolResult :=
  (await id <- read_id params ; searchImages cfg (Some (Js.put "id" id [])))%async.

Definition getVideoById (cfg : PixabayConfig) (params : option (Js.Obj Js.Value))
  : Async CallToolResult :=
  (await id <- read_id params ; searchVideos cfg (Some (Js.put "id" id [])))%async.

(** The [switch (name)] inside the [try] block. *)
Definition dispatch (cfg : PixabayConfig) (name : string)
    (args : option (Js.Obj Js.Value)) : Async CallToolResult :=
  if String.eqb name "search_images" then searchImages cfg args
  else if String.eqb name "search_videos" then searchVideos cfg args
  else if String.eqb name "get_image_by_id" then getImageById cfg args
  else if String.eqb name "get_video_by_id" then getVideoById cfg args
  else throw (Js.MkError ("Unknown tool: " +:+ name)).

(** The [catch] block: every thrown value here is an [Error], so the text
    is its message behind the prefix. *)
Definition on_error (error : Js.Error) : Async CallToolResult :=
  ret (text_result ("Error: " +:+ Js.message error)).

(** The [CallToolRequestSchema] handler.  The guard on the API key stands
    before the [try]; the [catch] turns whatever the dispatch throws into
    a text result. *)
Definition callTool (cfg : PixabayConfig) (name : string)
    (args : option (Js.Obj Js.Value)) : Async CallToolResult :=
  if String.eqb (apiKey cfg) "" then
    throw (Js.MkError "PIXABAY_API_KEY environment variable is required")
  else
    try_catch (dispatch cfg name args) on_error.

End Gateway.

(** ** The tool registry

    The [ListToolsRequestSchema] handler returns a constant array.  The
    descriptors are transcribed with the machine-readable part of each
    property (type, enum, default, bounds); the prose descriptions of the
    properties are left out. *)

Record Property : Type := {
  p_name : string;
  p_type : string;
  p_enum : list string;
  p_default : option Js.Value;
  p_minimum : option Z;
  p_maximum : option Z
}.

Record Tool : Type := {
  t_name : string;
  t_description : string;
  t_properties : list Property;
  t_required : list string
}.

Definition prop (n ty : string) (d : option Js.Value) : Property :=
  {| p_name := n; p_type := ty; p_enum := []; p_default := d;
     p_minimum := None; p_maximum := None |}.

Definition prop_enum (n : string) (vs : list string) (d : string) : Property :=
  {| p_name := n; p_type := "string"; p_enum := vs;
     p_default := Some (Js.Str d); p_minimum := None; p_maximum := None |}.

Definition per_page_property : Property :=
  {| p_name := "per_page"; p_type := "integer"; p_enum := [];
     p_default := Some (Js.Number 20);
     p_minimum := Some 3; p_maximum := Some 200 |}.

Definition tools : list Tool :=
  [ {| t_name := "search_images";
       t_description := "Search for royalty-free images on Pixabay";
       t_properties :=
         [ prop "q" "string" None;
           prop "lang" "string" (Some (Js.Str "en"));
           prop_enum "image_type" ["all"; "photo"; "illustration"; "vector"] "all";
           prop_enum "orientation" ["all"; "horizontal"; "vertical"] "all";
           prop "category" "string" None;
           prop "min_width" "integer" (Some (Js.Number 0));
           prop "min_height" "integer" (Some (Js.Number 0));
           prop "colors" "string" None;
           prop "editors_choice" "boolean" (Some (Js.Bool false));
           prop "safesearch" "boolean" (Some (Js.Bool false));
           prop_enum "order" ["popular"; "latest"] "popular";
           prop "page" "integer" (Some (Js.Number 1));
           per_page_property ];
       t_required := [] |};
    {| t_name := "search_videos";
       t_description := "Search for royalty-free videos on Pixabay";
       t_properties :=
         [ prop "q" "string" None;
           prop "lang" "string" (Some (Js.Str "en"));
           prop_enum "video_type" ["all"; "film"; "animation"] "all";
           prop "category" "string" None;
           prop "min_width" "integer" (Some (Js.Number 0));
           prop "min_height" "integer" (Some (Js.Number 0));
           prop "editors_choice" "boolean" (Some (Js.Bool false));
           prop "safesearch" "boolean" (Some (Js.Bool false));
           prop_enum "order" ["popular"; "latest"] "popular";
           prop "page" "integer" (Some (Js.Number 1));
           per_page_property ];
       t_required := [] |};
    {| t_name := "get_image_by_id";
       t_description := "Retrieve a specific image by its Pixabay ID";
       t_properties := [ prop "id" "string" None ];
       t_required := ["id"] |};
    {| t_name := "get_video_by_id";
       t_description := "Retrieve a specific video by its Pixabay ID";
       t_properties := [ prop "id" "string" None ];
       t_required := ["id"] |} ].

Definition listTools : Async (list Tool) := ret tools.

(** The [ListResourcesRequestSchema] and [ListPromptsRequestSchema]
    handlers: the server offers neither, both arrays are empty. *)
Definition listResources : Async (list string) := ret [].

Definition listPrompts : Async (list string) := ret [].

(** The names the dispatch of [callTool] knows. *)
Definition registered (name : string) : bool :=
  bool_decide (name ∈ t_name <$> tools).

(** ** Vocabulary of the statements *)

(** The invocation came back as a protocol envelope with this text. *)
Definition returns_text (s : string) (r : Outcome CallToolResult * World) : Prop :=
  r.1 = Return (text_result s).

(** The handler itself threw: the protocol call failed. *)
Definition throws (r : Outcome CallToolResult * World) : Prop :=
  exists e, r.1 = Throw e.

(** No request left the process during the call. *)
Definition no_network (w : World) (r : Outcome CallToolResult * World) : Prop :=
  sent r.2 = sent w.

(** What the normalisation makes of one argument value: nothing when the
    filter drops it, its string otherwise (when [String] returns one). *)
Definition normalise (v : Js.Value) : option string :=
  if kept v then
    match Js.String_ v with
    | inr s => Some s
    | inl _ => None
    end
  else None.

(** The value the last entry of [src] named [k] carries. *)
Fixpoint last_write {V} (k : string) (src : list (string * V)) : option V :=
  match src with
  | [] => None
  | e :: src' =>
      match last_write k src' with
      | Some v => Some v
      | None => if String.eqb e.1 k then Some e.2 else None
      end
  end.

(** The request [fetch(u)] sends. *)
Definition request_to (u : string) : Request := {| url := u; headers := [] |}.

(** The two search tools, with the endpoint and the log prefixes each
    passes to the shared body. *)
Inductive SearchTool : Type := Images | Videos.

Definition tool_name (t : SearchTool) : string :=
  match t with Images => "search_images" | Videos => "search_videos" end.

Definition endpoint (cfg : PixabayConfig) (t : SearchTool) : string :=
  match t with Images => baseUrl cfg | Videos => videosUrl cfg end.

Definition request_tag (t : SearchTool) : string :=
  match t with
  | Images => "Pixabay API Request: "
  | Videos => "Pixabay Video API Request: "
  end.

Definition error_tag (t : SearchTool) : string :=
  match t with
  | Images => "Pixabay API Error Response: "
  | Videos => "Pixabay Video API Error Response: "
  end.

(** The URL a search asks for, from the text of its query. *)
Definition url_of_query (cfg : PixabayConfig) (t : SearchTool) (q : string)
  : string :=
  endpoint cfg t +:+ "?" +:+ q.

(** The error the guard of [callTool] throws. *)
Definition configuration_error : Js.Error :=
  Js.MkError "PIXABAY_API_KEY environment variable is required".
(** *** Sample surroundings for concrete runs *)

(** A network that is down. *)
Definition offline : Request -> FetchResult :=
  fun _ => Rejected (Js.MkError "getaddrinfo ENOTFOUND pixabay.com").

(** A network that answers every request with [r]. *)
Definition answering (r : Response) : Request -> FetchResult :=
  fun _ => Fulfilled r.


Definition no_hits : Response :=
  {| status := 200; statusText := "OK";
     text_body := "{}"; json_pretty := inr "{}" |}.

Definition with_secret : PixabayConfig := config_of_env (Some "SECRET").

(** The character [c] occurs in [s]. *)
Fixpoint has_char (c : ascii) (s : string) : bool :=
  match s with
  | EmptyString => false
  | String c' s' => Ascii.eqb c' c || has_char c s'
  end.


(** [s] occurs in [t]. *)
Definition occurs_in (s t : string) : Prop :=
  exists pre post, t = pre +:+ s +:+ post.

(** The empty world a fresh process starts from. *)
Definition quiet : World := {| stderr := []; sent := [] |}.

(** *** Vocabulary of the further properties *)

(** The search a registered name ends in: the two lookups by id run the
    search of their kind. *)
Definition tool_kind (name : string) : option SearchTool :=
  if String.eqb name "search_images" || String.eqb name "get_image_by_id"
  then Some Images
  else if String.eqb name "search_videos" || String.eqb name "get_video_by_id"
  then Some Videos
  else None.

Definition by_id (name : string) : bool :=
  String.eqb name "get_image_by_id" || String.eqb name "get_video_by_id".

(** The object the search is run on: the arguments themselves, or for a
    lookup by id the object [{ id: params.id }]. *)
Definition effective_params (name : string) (o : Js.Obj Js.Value)
  : Js.Obj Js.Value :=
  if by_id name then [("id", default Js.Undefined (Js.get "id" o))] else o.

(** The value the query carries under "key": the caller's, when the
    arguments hold one that passes the filter, else the configured one. *)
Definition credential (cfg : PixabayConfig) (params : Js.Obj Js.Value) : string :=
  default (apiKey cfg) (Js.get "key" params ≫= normalise).

(** The entries of [l] not named [k]. *)
Fixpoint without {V} (k : string) (l : list (string * V)) : list (string * V) :=
  match l with
  | [] => []
  | e :: l' => if String.eqb e.1 k then without k l' else e :: without k l'
  end.

(** The bytes a query text is made of: the unreserved ones, the percent
    sign and the plus of the encoding, and the two separators. *)
Definition query_byte (c : ascii) : bool :=
  URLSearchParams.unreserved c
  || Ascii.eqb c "%" || Ascii.eqb c "+" || Ascii.eqb c "&" || Ascii.eqb c "=".

Fixpoint all_bytes (P : ascii -> bool) (s : string) : bool :=
  match s with
  | EmptyString => true
  | String c s' => P c && all_bytes P s'
  end.

(** No property name of the object is an array index. *)
Definition plain_keys {V} (o : Js.Obj V) : Prop :=
  Forall (fun k => Js.array_index k = None) (Js.keys o).

#[global] Instance plain_keys_dec {V} (o : Js.Obj V) : Decision (plain_keys o).
Proof. unfold plain_keys. apply _. Defined.

(** What a search makes of the answer once its query is built and the URL
    is [u]: the request line is logged, the request is sent, and the
    handler wraps the outcome. *)
Definition finished (network : Request -> FetchResult) (t : SearchTool)
    (u : string) (w : World) : Outcome CallToolResult * World :=
  let w1 := {| stderr := stderr w ++ [request_tag t +:+ u];
               sent := sent w ++ [request_to u] |} in
  match network (request_to u) with
  | Rejected e => (Return (text_result ("Error: " +:+ Js.message e)), w1)
  | Fulfilled r =>
      if ok r then
        (match json_pretty r with
         | inl e => Return (text_result ("Error: " +:+ Js.message e))
         | inr data => Return (text_result data)
         end, w1)
      else
        (Return (text_result ("Error: " +:+ Js.message (api_error r))),
         {| stderr := stderr w1 ++ [error_tag t +:+ text_body r];
            sent := sent w1 |})
  end.

(** ** Facts about objects *)

Section ObjectFacts.

Context {V : Type}.
Implicit Types (o : Js.Obj V) (k : string) (v : V).

Lemma get_None_keys k o : Js.get k o = None <-> k ∉ Js.keys o.
Proof.
  unfold Js.keys. induction o as [|[k' v'] o IH]; simpl.
  - split; [intros _; apply not_elem_of_nil | done].
  - rewrite not_elem_of_cons. destruct (String.eqb_spec k' k) as [->|Hne].
    + split; [done | intros [? _]; done].
    + rewrite IH. split; [intros ?; split; [congruence | done] | intros [_ ?]; done].
Qed.

Lemma get_Some_elem k v o : Js.get k o = Some v -> (k, v) ∈ o.
Proof.
  induction o as [|[k' v'] o IH]; simpl; [done|].
  destruct (String.eqb_spec k' k) as [->|Hne].
  - intros [= ->]. apply elem_of_cons; by left.
  - intros H. apply elem_of_cons; right; auto.
Qed.

Lemma elem_get k v o : Js.wf o -> (k, v) ∈ o -> Js.get k o = Some v.
Proof.
  unfold Js.wf, Js.keys. induction o as [|[k' v'] o IH]; simpl.
  - intros _ H. by apply elem_of_nil in H.
  - intros Hnd Hin. apply NoDup_cons in Hnd as [Hk' Hnd].
    apply elem_of_cons in Hin as [[= -> ->]|Hin].
    + by rewrite String.eqb_refl.
    + destruct (String.eqb_spec k' k) as [->|Hne]; [|auto].
      exfalso. apply Hk'. apply list_elem_of_fmap. by exists (k, v).
Qed.

Lemma keys_overwrite k v o : Js.keys (Js.overwrite k v o) = Js.keys o.
Proof.
  unfold Js.keys. induction o as [|[k' v'] o IH]; csimpl; [done|].
  destruct (String.eqb k' k); csimpl; [done | by rewrite IH].
Qed.

Lemma get_overwrite k k' v o :
  Js.get k' (Js.overwrite k v o) =
  if String.eqb k k' then (fun _ => v) <$> Js.get k o else Js.get k' o.
Proof.
  induction o as [|[k1 v1] o IH]; simpl.
  - by destruct (String.eqb k k').
  - destruct (String.eqb_spec k1 k) as [->|Hne]; simpl.
    + destruct (String.eqb_spec k k') as [->|Hne']; simpl; [done|].
      by destruct (String.eqb_spec k k').
    + rewrite IH. destruct (String.eqb_spec k k') as [<-|Hne'].
      * by destruct (String.eqb_spec k1 k).
      * done.
Qed.

Lemma keys_insert_index n k v o : Js.keys (Js.insert_index n k v o) ≡ₚ k :: Js.keys o.
Proof.
  unfold Js.keys. induction o as [|[k' v'] o IH]; csimpl; [done|].
  destruct (Js.array_index k') as [m|]; [|done].
  destruct (m <? n)%N; csimpl; [|done].
  rewrite IH. apply Permutation_swap.
Qed.

Lemma get_insert_index n k k' v o :
  Js.get k o = None ->
  Js.get k' (Js.insert_index n k v o) =
  if String.eqb k k' then Some v else Js.get k' o.
Proof.
  induction o as [|[k1 v1] o IH]; simpl; [done|].
  destruct (String.eqb_spec k1 k) as [->|Hne]; [done|]. intros Hk.
  destruct (Js.array_index k1) as [m|]; [destruct (m <? n)%N|]; simpl;
    try done.
  rewrite (IH Hk). destruct (String.eqb_spec k k') as [<-|Hne'];
    [by destruct (String.eqb_spec k1 k) | done].
Qed.

Lemma get_app_new k k' v o :
  Js.get k o = None ->
  Js.get k' (o ++ [(k, v)]) = if String.eqb k k' then Some v else Js.get k' o.
Proof.
  induction o as [|[k1 v1] o IH]; simpl.
  - by destruct (String.eqb k k').
  - destruct (String.eqb_spec k1 k) as [->|Hne]; [done|]. intros Hk.
    rewrite (IH Hk). destruct (String.eqb_spec k k') as [<-|Hne'];
      [by destruct (String.eqb_spec k1 k) | done].
Qed.

(** Reading after [put]: the written property holds the new value, every
    other one is untouched. *)
Lemma get_put k k' v o :
  Js.get k' (Js.put k v o) = if String.eqb k k' then Some v else Js.get k' o.
Proof.
  unfold Js.put. destruct (Js.get k o) as [v0|] eqn:Hk.
  - rewrite get_overwrite, Hk. by destruct (String.eqb k k').
  - destruct (Js.array_index k) as [n|].
    + by apply get_insert_index.
    + by apply get_app_new.
Qed.

Lemma wf_put k v o : Js.wf o -> Js.wf (Js.put k v o).
Proof.
  unfold Js.wf, Js.put. intros Hwf. destruct (Js.get k o) as [v0|] eqn:Hk.
  - by rewrite keys_overwrite.
  - apply get_None_keys in Hk.
    assert (NoDup (k :: Js.keys o)) as Hnd by (by apply NoDup_cons).
    destruct (Js.array_index k) as [n|].
    + by rewrite keys_insert_index.
    + unfold Js.keys in *. rewrite fmap_app. simpl.
      by rewrite <- Permutation_cons_append.
Qed.

Lemma wf_assign o (src : list (string * V)) : Js.wf o -> Js.wf (Js.assign o src).
Proof.
  unfold Js.assign. revert o.
  induction src as [|e src IH]; simpl; intros o Hwf; [done|].
  apply IH. by apply wf_put.
Qed.

(** Reading after a spread: the last write of [src] to the key wins, and
    the base shows through where [src] has none. *)
Lemma get_assign k o (src : list (string * V)) :
  Js.get k (Js.assign o src) =
  match last_write k src with Some v => Some v | None => Js.get k o end.
Proof.
  unfold Js.assign. revert o.
  induction src as [|e src IH]; simpl; intros o; [done|].
  rewrite IH. destruct (last_write k src); [done|].
  rewrite get_put. by destruct (String.eqb e.1 k).
Qed.

Lemma last_write_wf k (src : Js.Obj V) : Js.wf src -> last_write k src = Js.get k src.
Proof.
  unfold Js.wf, Js.keys. induction src as [|[k1 v1] src IH]; simpl; [done|].
  intros Hnd. apply NoDup_cons in Hnd as [Hk1 Hnd]. rewrite (IH Hnd).
  destruct (String.eqb_spec k1 k) as [->|Hne]; [|by destruct (Js.get k src)].
  apply get_None_keys in Hk1. unfold Js.keys in Hk1. by rewrite Hk1.
Qed.

Lemma wf_fromEntries (l : list (string * V)) : Js.wf (Js.fromEntries l).
Proof. apply wf_assign. apply NoDup_nil_2. Qed.

End ObjectFacts.

(** ** Facts about the serialisation

    [toString] loses nothing: parsing its text gives the parameters back,
    so what holds of the parameter list holds of the text on the wire. *)

Section Serialisation.

Import URLSearchParams.


Lemma append_nil_r (a : string) : a +:+ "" = a.
Proof. induction a as [|x a IH]; simpl; [done | by rewrite IH]. Qed.

Lemma has_char_app c (a b : string) :
  has_char c (a +:+ b) = has_char c a || has_char c b.
Proof.
  induction a as [|x a IH]; simpl; [done|].
  rewrite IH. by destruct (Ascii.eqb x c).
Qed.

Lemma decode_encode_byte (c : ascii) (rest : string) :
  decode (encode_byte c +:+ rest) = String c (decode rest).
Proof. by destruct c as [[] [] [] [] [] [] [] []]. Qed.

Lemma decode_encode (s : string) : decode (encode s) = s.
Proof.
  induction s as [|c s IH]; [done|].
  change (encode (String c s)) with (encode_byte c +:+ encode s).
  by rewrite decode_encode_byte, IH.
Qed.

Lemma encode_byte_clean (c : ascii) :
  has_char "&" (encode_byte c) = false /\ has_char "=" (encode_byte c) = false.
Proof. by destruct c as [[] [] [] [] [] [] [] []]. Qed.

Lemma encode_clean (s : string) :
  has_char "&" (encode s) = false /\ has_char "=" (encode s) = false.
Proof.
  induction s as [|c s [IH1 IH2]]; [done|]. simpl.
  destruct (encode_byte_clean c) as [H1 H2].
  by rewrite !has_char_app, H1, H2, IH1, IH2.
Qed.


Lemma cut_app sep (a b : string) :
  has_char sep a = false -> cut sep (a +:+ String sep b) = (a, b).
Proof.
  induction a as [|x a IH]; simpl.
  - by rewrite Ascii.eqb_refl.
  - intros [Hx Ha]%orb_false_elim. by rewrite Hx, (IH Ha).
Qed.

Lemma split_clean sep (a : string) : has_char sep a = false -> split sep a = [a].
Proof.
  induction a as [|x a IH]; simpl; [done|].
  intros [Hx Ha]%orb_false_elim. by rewrite Hx, (IH Ha).
Qed.

Lemma split_app sep (a b : string) :
  has_char sep a = false -> split sep (a +:+ String sep b) = a :: split sep b.
Proof.
  induction a as [|x a IH]; simpl.
  - by rewrite Ascii.eqb_refl.
  - intros [Hx Ha]%orb_false_elim. by rewrite Hx, (IH Ha).
Qed.

Lemma pair_text_clean (e : string * string) : has_char "&" (pair_text e) = false.
Proof.
  unfold pair_text. rewrite !has_char_app.
  destruct (encode_clean e.1) as [-> _], (encode_clean e.2) as [-> _]. done.
Qed.

Lemma pair_text_nonempty (e : string * string) : pair_text e <> "".
Proof. unfold pair_text. by destruct (encode e.1). Qed.

Lemma parse_piece (e : string * string) :
  (let '(a, b) := cut "=" (pair_text e) in (decode a, decode b)) = e.
Proof.
  unfold pair_text. simpl.
  rewrite cut_app by apply encode_clean. rewrite !decode_encode. by destruct e.
Qed.

Lemma split_toString (e : string * string) (p : t) :
  split "&" (toString (e :: p)) = pair_text <$> (e :: p).
Proof.
  unfold toString. revert e. induction p as [|e' p IH]; intros e.
  - simpl. apply split_clean, pair_text_clean.
  - change (join "&" (pair_text <$> e :: e' :: p))
      with (pair_text e +:+ String "&" (join "&" (pair_text <$> e' :: p))).
    rewrite split_app by apply pair_text_clean. by rewrite IH.
Qed.

(** Parsing the serialised parameters gives the parameters back. *)
Lemma parse_toString (p : t) : parse (toString p) = p.
Proof.
  destruct p as [|e p]; [done|]. unfold parse. rewrite split_toString.
  generalize (e :: p). clear. intros l.
  induction l as [|e l IH]; [done|]. csimpl.
  rewrite filter_cons, decide_True by apply pair_text_nonempty.
  csimpl. by rewrite parse_piece, IH.
Qed.

End Serialisation.

(** ** Facts about [String] *)

Lemma pretty_N_go_nonempty (x : N) (s : string) : s <> "" -> pretty_N_go x s <> "".
Proof.
  revert s. induction (N.lt_wf_0 x) as [x _ IH]; intros s Hs.
  destruct (decide (x = 0%N)) as [->|Hx].
  - by rewrite pretty_N_go_0.
  - rewrite pretty_N_go_step by lia. apply IH; [|done].
    apply N.div_lt; lia.
Qed.

Lemma pretty_Z_nonempty (n : Z) : pretty n <> "".
Proof.
  destruct n as [|q|q]; [done| |done].
  unfold pretty, pretty_Z, pretty, pretty_positive, pretty, pretty_N.
  rewrite decide_False by done.
  rewrite pretty_N_go_step by lia. by apply pretty_N_go_nonempty.
Qed.

Lemma append_nonempty_l (a b : string) : a <> "" -> a +:+ b <> "".
Proof. by destruct a. Qed.

Lemma append_nonempty_r (a b : string) : b <> "" -> a +:+ b <> "".
Proof. destruct a; [done|]. by intros _. Qed.

Lemma number_text_nonempty (digits : string) (n : Z) :
  digits <> "" -> Js.number_text digits n <> "".
Proof.
  intros Hd. unfold Js.number_text.
  repeat case_match; try done.
  - by apply append_nonempty_l.
  - by apply append_nonempty_r.
Qed.

Lemma decimal_text_nonempty (m d : Z) : Js.decimal_text m d <> "".
Proof.
  unfold Js.decimal_text.
  destruct (Js.strip_zeros (pretty (Z.abs m))) as [|c digits] eqn:Hs; [done|].
  apply append_nonempty_r, number_text_nonempty. done.
Qed.

Lemma integer_text_nonempty (n : Z) : Js.integer_text n <> "".
Proof.
  unfold Js.integer_text. case_match;
    [apply pretty_Z_nonempty | apply decimal_text_nonempty].
Qed.


(** [String] returns for every value without parts. *)
Lemma String_scalar (v : Js.Value) :
  Js.scalar v = true -> exists s, Js.String_ v = inr s.
Proof. destruct v as [| |[]| | |[]| | |]; simpl; try done; eauto. Qed.

(** Only an array has the empty string as its text, among the values the
    filter keeps. *)
Lemma String_kept_empty (v : Js.Value) :
  kept v = true -> Js.String_ v = inr "" -> exists items, v = Js.Array items.
Proof.
  destruct v as [| |[]|n|m d|[]|s|items|props]; simpl; try done.
  - intros _ [= H]. by apply integer_text_nonempty in H.
  - intros _ [= H]. by apply decimal_text_nonempty in H.
  - intros Hs [= ->]. done.
  - eauto.
  - intros _. by destruct (Js.get "toString" props).
Qed.


(** ** Facts about the query *)

Lemma kept_entries_cons k v (p : Js.Obj Js.Value) :
  kept_entries ((k, v) :: p) =
  if kept v then
    match Js.String_ v with
    | inl e => inl e
    | inr s =>
        match kept_entries p with
        | inl e => inl e
        | inr rest => inr ((k, s) :: rest)
        end
    end
  else kept_entries p.
Proof.
  unfold kept_entries, Js.entries. rewrite filter_cons. simpl.
  destruct (kept v); [by rewrite decide_True | by rewrite decide_False].
Qed.

(** What the induction over the arguments needs of one step. *)
Lemma kept_entries_step k v (p : Js.Obj Js.Value) (l : list (string * string)) :
  kept_entries ((k, v) :: p) = inr l ->
  (kept v = false /\ kept_entries p = inr l) \/
  (exists s rest,
     kept v = true /\ Js.String_ v = inr s /\
     kept_entries p = inr rest /\ l = (k, s) :: rest).
Proof.
  rewrite kept_entries_cons. destruct (kept v); [|by left].
  destruct (Js.String_ v) as [e|s]; [done|].
  destruct (kept_entries p) as [e|rest]; [done|].
  intros [= <-]. right. by exists s, rest.
Qed.

Lemma get_kept_entries k (params : Js.Obj Js.Value) (l : list (string * string)) :
  Js.wf params -> kept_entries params = inr l ->
  Js.get k l = Js.get k params ≫= normalise.
Proof.
  unfold Js.wf. revert l. induction params as [|[k1 v1] p IH]; intros l.
  { intros _ [= <-]. done. }
  intros Hnd Hl. apply NoDup_cons in Hnd as [Hk1 Hnd].
  apply get_None_keys in Hk1. simpl in Hk1.
  apply kept_entries_step in Hl as [[Hv Hl]|(s & rest & Hv & Hs & Hl & ->)].
  - rewrite (IH l Hnd Hl). simpl.
    destruct (String.eqb_spec k1 k) as [->|Hne]; [|done].
    rewrite Hk1. simpl. unfold normalise. by rewrite Hv.
  - simpl. destruct (String.eqb_spec k1 k) as [->|Hne]; [|by apply IH].
    simpl. unfold normalise. by rewrite Hv, Hs.
Qed.

Lemma wf_kept_entries (params : Js.Obj Js.Value) (l : list (string * string)) :
  Js.wf params -> kept_entries params = inr l -> Js.wf l.
Proof.
  unfold Js.wf. revert l. induction params as [|[k1 v1] p IH]; intros l.
  { intros _ [= <-]. apply NoDup_nil_2. }
  intros Hnd Hl. apply NoDup_cons in Hnd as [Hk1 Hnd].
  apply kept_entries_step in Hl as [[Hv Hl]|(s & rest & Hv & Hs & Hl & ->)];
    [by apply IH|].
  apply NoDup_cons. split; [|by apply IH].
  apply get_None_keys. simpl. rewrite (get_kept_entries k1 p rest Hnd Hl).
  apply get_None_keys in Hk1. simpl in Hk1. by rewrite Hk1.
Qed.


(** When the map went through, every kept argument has a string. *)
Lemma kept_entries_in k v (params : Js.Obj Js.Value) (l : list (string * string)) :
  kept_entries params = inr l ->
  (k, v) ∈ params -> kept v = true ->
  exists s, Js.String_ v = inr s /\ (k, s) ∈ l.
Proof.
  revert l. induction params as [|[k1 v1] p IH]; intros l.
  { intros _ ?%elem_of_nil. done. }
  intros Hl Hin Hv.
  apply kept_entries_step in Hl as [[Hv1 Hl]|(s' & rest & Hv1 & Hs1 & Hl & ->)].
  - apply elem_of_cons in Hin as [[= <- <-]|Hin]; [congruence|].
    by apply IH.
  - apply elem_of_cons in Hin as [[= <- <-]|Hin].
    + exists s'. split; [done|]. apply elem_of_cons. by left.
    + destruct (IH rest Hl Hin Hv) as (s & ? & ?). exists s.
      split; [done|]. apply elem_of_cons. by right.
Qed.

Lemma length_kept_entries (params : Js.Obj Js.Value) (l : list (string * string)) :
  kept_entries params = inr l -> (List.length l <= List.length params)%nat.
Proof.
  revert l. induction params as [|[k1 v1] p IH]; intros l.
  { intros [= <-]. done. }
  intros Hl.
  apply kept_entries_step in Hl as [[Hv Hl]|(s' & rest & Hv & Hs & Hl & ->)].
  - specialize (IH l Hl). simpl. lia.
  - specialize (IH rest Hl). simpl. lia.
Qed.

(** The query holds the caller's kept parameters; the configured key shows
    where the caller gave none of that name. *)
Lemma get_searchParams_of cfg k (l : list (string * string)) :
  Js.get k (searchParams_of cfg l) =
  match last_write k l with
  | Some s => Some s
  | None => if String.eqb "key" k then Some (apiKey cfg) else None
  end.
Proof.
  unfold searchParams_of, URLSearchParams.of_record, Js.entries.
  rewrite get_assign.
  rewrite (last_write_wf k (Js.fromEntries l)) by apply wf_fromEntries.
  unfold Js.fromEntries at 1. rewrite get_assign, get_put. simpl.
  destruct (last_write k l); [done|]. by destruct (String.eqb "key" k).
Qed.

Lemma wf_searchParams_of cfg (l : list (string * string)) :
  Js.wf (searchParams_of cfg l).
Proof. apply wf_assign, wf_put, NoDup_nil_2. Qed.

(** A query that was built comes from kept entries that all have a
    string. *)
Lemma queryString_built cfg (params : Js.Obj Js.Value) (q : string) :
  queryString cfg params = inr q ->
  exists l,
    kept_entries params = inr l /\
    q = URLSearchParams.toString (searchParams_of cfg l).
Proof.
  unfold queryString, searchParams.
  destruct (kept_entries params) as [e|l]; [done|].
  intros [= <-]. by exists l.
Qed.

Lemma queryString_of_entries cfg (params : Js.Obj Js.Value) l :
  kept_entries params = inr l ->
  queryString cfg params = inr (URLSearchParams.toString (searchParams_of cfg l)).
Proof. unfold queryString, searchParams. by intros ->. Qed.

Lemma queryString_thrown cfg (params : Js.Obj Js.Value) (e : Js.Error) :
  queryString cfg params = inl e <-> kept_entries params = inl e.
Proof.
  unfold queryString, searchParams.
  destruct (kept_entries params) as [e'|l];
    [split; intros [= ->]; done | split; discriminate].
Qed.

Lemma getAll_None k (p : URLSearchParams.t) :
  Js.get k p = None -> URLSearchParams.getAll k p = [].
Proof.
  induction p as [|[k1 v1] p IH]; [done|].
  simpl. by destruct (String.eqb k1 k).
Qed.

(** A well-formed parameter list holds each name at most once. *)
Lemma getAll_Some k v (p : URLSearchParams.t) :
  Js.wf p -> Js.get k p = Some v -> URLSearchParams.getAll k p = [v].
Proof.
  unfold Js.wf. induction p as [|[k1 v1] p IH]; [done|].
  intros Hnd. apply NoDup_cons in Hnd as [Hk1 Hnd].
  simpl in *. destruct (String.eqb_spec k1 k) as [->|Hne]; [|auto].
  intros [= ->]. apply get_None_keys in Hk1. by rewrite (getAll_None _ _ Hk1).
Qed.
(** ** How a call runs *)

Section Runs.

Variable network : Request -> FetchResult.

(** One search, step by step: the query is built, which can throw; then
    the request line is logged, the request is sent, and the answer
    decides between the three ways out. *)
Lemma search_run endp rtag etag cfg (p : Js.Obj Js.Value) (w : World) :
  search network endp rtag etag cfg (Some p) w =
  match queryString cfg p with
  | inl e => (Throw e, w)
  | inr q =>
      let u := endp +:+ "?" +:+ q in
      let w1 := {| stderr := stderr w ++ [rtag +:+ u];
                   sent := sent w ++ [request_to u] |} in
      match network (request_to u) with
      | Rejected e => (Throw e, w1)
      | Fulfilled r =>
          if ok r then
            (match json_pretty r with
             | inl e => Throw e
             | inr data => Return (text_result data)
             end, w1)
          else
            (Throw (api_error r),
             {| stderr := stderr w1 ++ [etag +:+ text_body r]; sent := sent w1 |})
      end
  end.
Proof.
  unfold search. destruct (queryString cfg p) as [e|q]; [done|].
  unfold bind, console_error, fetch, throw, ret, request_to. simpl.
  destruct (network _) as [e|r]; [done|].
  destruct (ok r); simpl; [|done]. by destruct (json_pretty r).
Qed.

Lemma dispatch_search cfg (t : SearchTool) args :
  dispatch network cfg (tool_name t) args =
  search network (endpoint cfg t) (request_tag t) (error_tag t) cfg args.
Proof. by destruct t. Qed.

Lemma callTool_unconfigured cfg name args (w : World) :
  apiKey cfg = "" ->
  callTool network cfg name args w = (Throw configuration_error, w).
Proof. unfold callTool. by intros ->. Qed.

Lemma callTool_configured cfg name args (w : World) :
  apiKey cfg <> "" ->
  callTool network cfg name args w =
  try_catch (dispatch network cfg name args) on_error w.
Proof.
  unfold callTool. intros Hk. apply String.eqb_neq in Hk. by rewrite Hk.
Qed.

(** With a key configured, a search whose query is built leaves the
    request line and the request behind and comes back with a text. *)
Lemma callTool_search cfg (t : SearchTool) (p : Js.Obj Js.Value) q (w : World) :
  apiKey cfg <> "" ->
  queryString cfg p = inr q ->
  callTool network cfg (tool_name t) (Some p) w =
  finished network t (url_of_query cfg t q) w.
Proof.
  intros Hk Hq. rewrite (callTool_configured _ _ _ _ Hk).
  unfold try_catch. rewrite dispatch_search, search_run, Hq.
  unfold finished, url_of_query. simpl.
  destruct (network _) as [e|r]; [done|].
  destruct (ok r); [|done]. by destruct (json_pretty r).
Qed.

(** When a [String] throws, the search ends there: the error comes back
    as text and the world is as it was. *)
Lemma callTool_search_thrown cfg (t : SearchTool) (p : Js.Obj Js.Value) e
    (w : World) :
  apiKey cfg <> "" ->
  queryString cfg p = inl e ->
  callTool network cfg (tool_name t) (Some p) w =
  (Return (text_result ("Error: " +:+ Js.message e)), w).
Proof.
  intros Hk Hq. rewrite (callTool_configured _ _ _ _ Hk).
  unfold try_catch. by rewrite dispatch_search, search_run, Hq.
Qed.

Lemma finished_text (t : SearchTool) (u : string) (w : World) :
  exists s, (finished network t u w).1 = Return (text_result s).
Proof.
  unfold finished. simpl. destruct (network _) as [e|r]; [by eexists|].
  destruct (ok r); [|by eexists]. destruct (json_pretty r); by eexists.
Qed.

Lemma finished_sent (t : SearchTool) (u : string) (w : World) :
  sent (finished network t u w).2 = sent w ++ [request_to u].
Proof.
  unfold finished. simpl. destruct (network _) as [e|r]; [done|].
  by destruct (ok r).
Qed.


End Runs.

Lemma dispatch_unknown network cfg name args :
  registered name = false ->
  dispatch network cfg name args = throw (Js.MkError ("Unknown tool: " +:+ name)).
Proof.
  unfold registered. intros H%bool_decide_eq_false. simpl in H.
  rewrite !not_elem_of_cons in H. destruct H as (H1 & H2 & H3 & H4 & _).
  unfold dispatch.
  apply String.eqb_neq in H1, H2, H3, H4. by rewrite H1, H2, H3, H4.
Qed.

Lemma tool_kind_registered name :
  registered name = true <-> exists t, tool_kind name = Some t.
Proof.
  unfold registered, tool_kind. rewrite bool_decide_eq_true. simpl.
  rewrite !elem_of_cons, elem_of_nil.
  destruct (String.eqb_spec name "search_images") as [->|H1]; simpl.
  { split; eauto. }
  destruct (String.eqb_spec name "get_image_by_id") as [->|H2]; simpl.
  { split; eauto 6. }
  destruct (String.eqb_spec name "search_videos") as [->|H3]; simpl.
  { split; eauto. }
  destruct (String.eqb_spec name "get_video_by_id") as [->|H4]; simpl.
  { split; eauto 6. }
  split; [intros [?|[?|[?|[?|[]]]]]; done | intros [t Ht]; done].
Qed.

Lemma tool_kind_unregistered name :
  tool_kind name = None -> registered name = false.
Proof.
  intros Hk. destruct (registered name) eqn:Hr; [|done].
  apply tool_kind_registered in Hr as [t Ht]. congruence.
Qed.

(** A registered tool runs the search of its kind on its effective
    arguments. *)
Lemma dispatch_by_kind network cfg name (t : SearchTool) (o : Js.Obj Js.Value) :
  tool_kind name = Some t ->
  dispatch network cfg name (Some o) =
  dispatch network cfg (tool_name t) (Some (effective_params name o)).
Proof.
  unfold tool_kind, effective_params, by_id.
  destruct (String.eqb_spec name "search_images") as [->|H1]; simpl.
  { by intros [= <-]. }
  destruct (String.eqb_spec name "get_image_by_id") as [->|H2]; simpl.
  { by intros [= <-]. }
  destruct (String.eqb_spec name "search_videos") as [->|H3]; simpl.
  { by intros [= <-]. }
  destruct (String.eqb_spec name "get_video_by_id") as [->|H4]; simpl.
  { by intros [= <-]. }
  done.
Qed.

Lemma callTool_by_kind network cfg name (t : SearchTool) (o : Js.Obj Js.Value) w :
  tool_kind name = Some t ->
  callTool network cfg name (Some o) w =
  callTool network cfg (tool_name t) (Some (effective_params name o)) w.
Proof.
  intros Hk. unfold callTool, try_catch.
  by rewrite (dispatch_by_kind _ _ _ _ _ Hk).
Qed.

(** Without an arguments object a configured server answers with an error
    text and does nothing else. *)
Lemma callTool_no_arguments network cfg name (w : World) :
  apiKey cfg <> "" ->
  exists msg,
    callTool network cfg name None w
    = (Return (text_result ("Error: " +:+ msg)), w).
Proof.
  intros Hk. rewrite (callTool_configured _ _ _ _ _ Hk).
  unfold try_catch, dispatch.
  destruct (String.eqb name "search_images"); [by eexists|].
  destruct (String.eqb name "search_videos"); [by eexists|].
  destruct (String.eqb name "get_image_by_id"); [by eexists|].
  destruct (String.eqb name "get_video_by_id"); by eexists.
Qed.

(** The two ways a call with a key configured can go: it ends in an error
    text with the world untouched, or a registered tool builds its query
    and runs the search to its end. *)
Lemma callTool_cases network cfg name args (w : World) :
  apiKey cfg <> "" ->
  (exists msg,
     callTool network cfg name args w
     = (Return (text_result ("Error: " +:+ msg)), w)) \/
  (exists t o q,
     tool_kind name = Some t /\ args = Some o /\
     queryString cfg (effective_params name o) = inr q /\
     callTool network cfg name args w
     = finished network t (url_of_query cfg t q) w).
Proof.
  intros Hk. destruct (tool_kind name) as [t|] eqn:Ht.
  - destruct args as [o|]; [|left; by apply callTool_no_arguments].
    rewrite (callTool_by_kind _ _ _ _ _ _ Ht).
    destruct (queryString cfg (effective_params name o)) as [e|q] eqn:Hq.
    + left. exists (Js.message e). by apply callTool_search_thrown.
    + right. exists t, o, q. by rewrite (callTool_search _ _ _ _ _ _ Hk Hq).
  - left. apply tool_kind_unregistered in Ht.
    rewrite (callTool_configured _ _ _ _ _ Hk). unfold try_catch.
    rewrite (dispatch_unknown _ _ _ _ Ht). by eexists.
Qed.

(** ** The model on concrete calls *)

Example query_of_a_filtered_search :
  queryString with_secret
    [("q", Js.Str "mountain landscape"); ("orientation", Js.Str "horizontal");
     ("category", Js.Undefined); ("min_width", Js.Number 1920);
     ("colors", Js.Str ""); ("editors_choice", Js.Bool true)]
  = inr "key=SECRET&q=mountain+landscape&orientation=horizontal&min_width=1920&editors_choice=true".
Proof. reflexivity. Qed.

Example query_with_index_keys :
  queryString with_secret
    [("q", Js.Str "a&b=c"); ("7", Js.Number 5); ("safesearch", Js.Bool false);
     ("2", Js.Number (-2)); ("page", Js.Null)]
  = inr "2=-2&7=5&key=SECRET&q=a%26b%3Dc&safesearch=false".
Proof. reflexivity. Qed.

Example query_with_numbers :
  queryString with_secret
    [("per_page", Js.Number (10 ^ 21)); ("min_width", Js.Decimal 15 1);
     ("page", Js.Decimal 1 7); ("min_height", Js.Infinity false)]
  = inr "key=SECRET&per_page=1e%2B21&min_width=1.5&page=1e-7&min_height=Infinity".
Proof. reflexivity. Qed.

Example query_with_arrays_and_objects :
  queryString with_secret
    [("q", Js.Array [Js.Str "a"; Js.Null; Js.Array [Js.Number 1; Js.Number 2]]);
     ("lang", Js.Object [("x", Js.Number 1)]); ("colors", Js.Array [])]
  = inr "key=SECRET&q=a%2C%2C1%2C2&lang=%5Bobject+Object%5D&colors=".
Proof. reflexivity. Qed.

Example query_that_throws :
  queryString with_secret
    [("q", Js.Str "cat"); ("lang", Js.Object [("toString", Js.Number 1)])]
  = inl (Js.MkError "Cannot convert object to primitive value").
Proof. reflexivity. Qed.

Example run_of_a_successful_search :
  callTool (answering no_hits) with_secret "search_videos"
    (Some [("q", Js.Str "surf")]) quiet
  = (Return (text_result "{}"),
     {| stderr := ["Pixabay Video API Request: https://pixabay.com/api/videos/?key=SECRET&q=surf"];
        sent := [request_to "https://pixabay.com/api/videos/?key=SECRET&q=surf"] |}).
Proof. reflexivity. Qed.

Example run_without_arguments :
  callTool offline with_secret "search_images" None quiet
  = (Return (text_result "Error: Cannot convert undefined or null to object"),
     quiet).
Proof. reflexivity. Qed.

Example run_with_a_throwing_argument :
  callTool (answering no_hits) with_secret "search_images"
    (Some [("q", Js.Object [("toString", Js.Number 1)])]) quiet
  = (Return (text_result "Error: Cannot convert object to primitive value"),
     quiet).
Proof. reflexivity. Qed.

(** The listing needs no configuration and names the four tools. *)
Example listing_names_four_tools (w : World) :
  (t_name <$> tools)
  = ["search_images"; "search_videos"; "get_image_by_id"; "get_video_by_id"]
  /\ listTools w = (Return tools, w).
Proof. done. Qed.

(** ** Further facts the claims rest on *)




Lemma occurs_in_last (a s : string) : occurs_in s (a +:+ s).
Proof. exists a, "". by rewrite append_nil_r. Qed.

Lemma snoc_neq_self {A} (l : list A) (x : A) : l <> l ++ [x].
Proof.
  intros H. apply (f_equal (@List.length A)) in H. rewrite length_app in H.
  simpl in H. lia.
Qed.

(** *** The query on the wire *)

(** Reading the parameters of a built query off the arguments. *)
Lemma get_built_query cfg k (params : Js.Obj Js.Value) (l : list (string * string)) :
  Js.wf params -> kept_entries params = inr l ->
  Js.get k (searchParams_of cfg l) =
  match Js.get k params ≫= normalise with
  | Some s => Some s
  | None => if String.eqb "key" k then Some (apiKey cfg) else None
  end.
Proof.
  intros Hwf Hl. rewrite get_searchParams_of.
  rewrite (last_write_wf k l) by (by apply (wf_kept_entries params)).
  by rewrite (get_kept_entries k params l).
Qed.

(** The values the text of a built query carries under a name are those
    of the parameter list. *)
Lemma wire_values cfg (l : list (string * string)) k :
  URLSearchParams.getAll k
    (URLSearchParams.parse (URLSearchParams.toString (searchParams_of cfg l))) =
  URLSearchParams.getAll k (searchParams_of cfg l).
Proof. by rewrite parse_toString. Qed.

Lemma wire_values_kept cfg (params : Js.Obj Js.Value) q k v :
  Js.wf params -> queryString cfg params = inr q ->
  Js.get k params = Some v -> kept v = true ->
  exists s,
    Js.String_ v = inr s /\
    URLSearchParams.getAll k (URLSearchParams.parse q) = [s].
Proof.
  intros Hwf Hq Hget Hv. apply queryString_built in Hq as (l & Hl & ->).
  destruct (kept_entries_in k v params l Hl (get_Some_elem _ _ _ Hget) Hv)
    as (s & Hs & _).
  exists s. split; [done|]. rewrite wire_values.
  apply getAll_Some; [apply wf_searchParams_of|].
  rewrite (get_built_query cfg k params l Hwf Hl), Hget. simpl.
  unfold normalise. by rewrite Hv, Hs.
Qed.






(** With a key configured a search whose query is built sends exactly one
    request, to the endpoint of the tool with that query. *)
Lemma search_sends network cfg (t : SearchTool) (params : Js.Obj Js.Value) q
    (w : World) :
  apiKey cfg <> "" ->
  queryString cfg params = inr q ->
  sent (callTool network cfg (tool_name t) (Some params) w).2 =
  sent w ++ [request_to (url_of_query cfg t q)].
Proof.
  intros Hk Hq. rewrite (callTool_search _ _ _ _ _ _ Hk Hq).
  apply finished_sent.
Qed.


(** What a call that sent the request [rq] returns, by the answer to it. *)
Lemma sent_request_decides network cfg name args (w : World) rq :
  apiKey cfg <> "" ->
  sent (callTool network cfg name args w).2 = sent w ++ [rq] ->
  exists t u,
    rq = request_to u /\
    callTool network cfg name args w = finished network t u w.
Proof.
  intros Hk Hsent.
  destruct (callTool_cases network cfg name args w Hk)
    as [[msg Hr]|(t & o & q & Ht & -> & Hq & Hr)].
  - rewrite Hr in Hsent. by apply snoc_neq_self in Hsent.
  - rewrite Hr, finished_sent in Hsent. apply app_inv_head in Hsent.
    exists t, (url_of_query cfg t q). split; [congruence | done].
Qed.

(** * The claims *)

(** ** C1: failures at the invocation boundary *)

(** C1 as stated fails: with no API key configured the handler throws the
    configuration error itself, so the protocol call fails and no text
    result comes back. *)
Lemma C1_configuration_error_escapes :
  let r := callTool offline (config_of_env None) "search_images" (Some []) quiet in
  throws r /\ ~ (exists s, returns_text s r).
Proof. split; [by eexists | by intros [s Hs]]. Qed.

(** C1, amended: with an API key configured every invocation, whatever its
    name and arguments, comes back as a text result and never throws; what
    the dispatch throws is returned as "Error: " followed by its message.
    That covers an unknown tool name and, for the request the call has
    sent, a rejected fetch and a non-2xx answer.  The configuration error is the one failure outside: the guard
    throws it before the try block. *)
Theorem C1_failures_behind_the_guard_become_text
    network cfg name args (w : World) :
  apiKey cfg <> "" ->
  let r := callTool network cfg name args w in
  (exists s, returns_text s r) /\
  ~ throws r /\
  (forall e w', dispatch network cfg name args w = (Throw e, w') ->
     r = (Return (text_result ("Error: " +:+ Js.message e)), w')) /\
  (registered name = false ->
     returns_text ("Error: Unknown tool: " +:+ name) r) /\
  (forall rq e, sent r.2 = sent w ++ [rq] ->
     network rq = Rejected e ->
     returns_text ("Error: " +:+ Js.message e) r) /\
  (forall rq resp, sent r.2 = sent w ++ [rq] ->
     network rq = Fulfilled resp ->
     ok resp = false ->
     returns_text ("Error: " +:+ Js.message (api_error resp)) r).
Proof.
  intros Hk r.
  assert (r = try_catch (dispatch network cfg name args) on_error w) as Hr
    by (by apply callTool_configured).
  assert (forall e w', dispatch network cfg name args w = (Throw e, w') ->
            r = (Return (text_result ("Error: " +:+ Js.message e)), w')) as Hcatch.
  { intros e w' Hd. rewrite Hr. unfold try_catch. by rewrite Hd. }
  assert (exists s, returns_text s r) as [s Hs].
  { destruct (callTool_cases network cfg name args w Hk)
      as [[msg Hc]|(t & o & q & _ & _ & _ & Hc)].
    - exists ("Error: " +:+ msg). subst r. unfold returns_text. by rewrite Hc.
    - destruct (finished_text network t (url_of_query cfg t q) w) as [s Hs].
      exists s. subst r. unfold returns_text. by rewrite Hc. }
  split; [by exists s|]. split; [|split; [done|]].
  { intros [e He]. unfold returns_text in Hs. congruence. }
  split; [|split].
  - intros Hreg. unfold returns_text.
    rewrite (Hcatch (Js.MkError ("Unknown tool: " +:+ name)) w); [done|].
    by rewrite dispatch_unknown.
  - intros rq e Hsent Hnet. subst r.
    destruct (sent_request_decides _ _ _ _ _ _ Hk Hsent) as (t & u & -> & Hc).
    unfold returns_text. rewrite Hc. unfold finished. by rewrite Hnet.
  - intros rq resp Hsent Hnet Hok. subst r.
    destruct (sent_request_decides _ _ _ _ _ _ Hk Hsent) as (t & u & -> & Hc).
    unfold returns_text. rewrite Hc. unfold finished. by rewrite Hnet, Hok.
Qed.

Lemma C1_witness :
  exists s,
    returns_text s (callTool offline with_secret "get_video_by_id" None quiet).
Proof.
  refine (proj1 (C1_failures_behind_the_guard_become_text
                   offline with_secret "get_video_by_id" None quiet _)).
  done.
Defined.

(** ** C2: the missing credential *)

(** C2 as stated fails: without a credential the call does not return a
    text result, it throws. *)
Lemma C2_missing_key_is_thrown_not_returned :
  let r := callTool (answering no_hits) (config_of_env (Some ""))
             "search_videos" (Some [("q", Js.Str "sea")]) quiet in
  throws r /\ ~ (exists s, returns_text s r).
Proof. split; [by eexists | by intros [s Hs]]. Qed.

(** C2, amended: with an empty API key every invocation throws the
    configuration error from the handler, before anything is logged and
    before any request is sent; the error is not turned into a text
    result. *)
Theorem C2_missing_key_throws_before_any_effect
    network cfg name args (w : World) :
  apiKey cfg = "" ->
  let r := callTool network cfg name args w in
  r = (Throw configuration_error, w) /\
  Js.message configuration_error = "PIXABAY_API_KEY environment variable is required" /\
  throws r /\
  no_network w r /\
  stderr r.2 = stderr w.
Proof.
  intros Hk r. subst r. rewrite (callTool_unconfigured _ _ _ _ _ Hk).
  repeat split. by eexists.
Qed.

Lemma C2_witness :
  callTool offline (config_of_env None) "get_image_by_id"
    (Some [("id", Js.Str "195893")]) quiet
  = (Throw configuration_error, quiet).
Proof.
  refine (proj1 (C2_missing_key_throws_before_any_effect offline
                   (config_of_env None) "get_image_by_id"
                   (Some [("id", Js.Str "195893")]) quiet _)).
  reflexivity.
Defined.

(** ** C3: parameter normalisation *)




(** ** C4: upstream HTTP errors *)



(** ** C5: lookup by id *)

(** C5 as stated fails in its second half: nothing checks the id before
    the delegation.  A number is sent on as its decimal text, and with no
    id at all the search still runs, with the credential as its only
    parameter. *)
Lemma C5_id_is_neither_required_nor_checked :
  sent (callTool (answering no_hits) with_secret "get_image_by_id"
          (Some [("id", Js.Number 42)]) quiet).2
  = [request_to "https://pixabay.com/api/?key=SECRET&id=42"] /\
  sent (callTool (answering no_hits) with_secret "get_video_by_id"
          (Some []) quiet).2
  = [request_to "https://pixabay.com/api/videos/?key=SECRET"].
Proof. by split. Qed.

(** C5, amended: for every argument object, [get_image_by_id] runs exactly
    as [search_images] does on the object whose only property is that id,
    and [get_video_by_id] as [search_videos]: same result, same log line,
    same request, hence the same query string byte for byte.  This holds
    for every id string in particular.  The id is read as it is: it is not
    required and its type is not checked before the delegation. *)
Theorem C5_get_by_id_is_search_by_id
    network cfg (o : Js.Obj Js.Value) (w : World) :
  let id := default Js.Undefined (Js.get "id" o) in
  callTool network cfg "get_image_by_id" (Some o) w
    = callTool network cfg "search_images" (Some [("id", id)]) w /\
  callTool network cfg "get_video_by_id" (Some o) w
    = callTool network cfg "search_videos" (Some [("id", id)]) w /\
  (forall s : string,
     callTool network cfg "get_image_by_id" (Some [("id", Js.Str s)]) w
       = callTool network cfg "search_images" (Some [("id", Js.Str s)]) w /\
     callTool network cfg "get_video_by_id" (Some [("id", Js.Str s)]) w
       = callTool network cfg "search_videos" (Some [("id", Js.Str s)]) w).
Proof.
  intros id. unfold callTool. destruct (String.eqb (apiKey cfg) ""); done.
Qed.

(** ** C6: the bounds of per_page *)




(** ** C7: unknown tool names *)

(** C7 as stated fails: when no API key is configured, a call of an
    unregistered name ends in the configuration error, which does not
    mention the name. *)
Lemma C7_unknown_tool_without_key :
  let r := callTool offline (config_of_env None) "delete_image" (Some []) quiet in
  registered "delete_image" = false /\
  r = (Throw configuration_error, quiet) /\
  ~ (exists s, returns_text s r).
Proof. repeat split. by intros [s Hs]. Qed.

(** C7, amended: with an API key configured, a call whose name is none of
    the four registered ones returns the text "Error: Unknown tool: "
    followed by the name, and leaves the world as it was: no request is
    sent and nothing is logged. *)
Theorem C7_unknown_tool_is_reported_by_name
    network cfg name args (w : World) :
  apiKey cfg <> "" ->
  registered name = false ->
  let r := callTool network cfg name args w in
  r = (Return (text_result ("Error: Unknown tool: " +:+ name)), w) /\
  occurs_in ("Unknown tool: " +:+ name) ("Error: Unknown tool: " +:+ name) /\
  no_network w r.
Proof.
  intros Hk Hreg r. subst r.
  rewrite (callTool_configured _ _ _ _ _ Hk). unfold try_catch.
  rewrite (dispatch_unknown _ _ _ _ Hreg). simpl.
  repeat split. exists "Error: ", "". by rewrite append_nil_r.
Qed.

Lemma C7_witness :
  callTool offline with_secret "delete_image" (Some []) quiet
  = (Return (text_result "Error: Unknown tool: delete_image"), quiet).
Proof.
  refine (proj1 (C7_unknown_tool_is_reported_by_name offline with_secret
                   "delete_image" (Some []) quiet _ _)); done.
Defined.

(** ** C8: the credential parameter *)




(** ** C9: the credential in the diagnostic stream *)




(** ** C10: a caller-supplied key *)

(** C10: when the argument object itself has a property "key" holding a
    non-empty string, the query that is built carries that string as its
    one "key" parameter, whatever API key is configured, and that query is
    what the search sends. *)
Theorem C10_caller_key_replaces_the_configured_one
    network cfg (t : SearchTool) (params : Js.Obj Js.Value) (s q : string)
    (w : World) :
  Js.wf params ->
  Js.get "key" params = Some (Js.Str s) ->
  s <> "" ->
  queryString cfg params = inr q ->
  URLSearchParams.getAll "key" (URLSearchParams.parse q) = [s] /\
  (apiKey cfg <> "" ->
   sent (callTool network cfg (tool_name t) (Some params) w).2
     = sent w ++ [request_to (url_of_query cfg t q)]).
Proof.
  intros Hwf Hget Hs Hq. split; [|intros Hk; by apply search_sends].
  destruct (wire_values_kept cfg params q "key" (Js.Str s) Hwf Hq Hget)
    as (s' & [= <-] & Hwire); [|done].
  simpl. by apply negb_true_iff, String.eqb_neq.
Qed.

Lemma C10_witness :
  URLSearchParams.getAll "key" (URLSearchParams.parse "key=MINE&q=fog")
  = ["MINE"].
Proof.
  refine (proj1 (C10_caller_key_replaces_the_configured_one offline with_secret
                   Images [("q", Js.Str "fog"); ("key", Js.Str "MINE")] "MINE"
                   "key=MINE&q=fog" quiet _ _ _ _)).
  - apply (bool_decide_unpack (Js.wf _)). by vm_compute.
  - reflexivity.
  - discriminate.
  - reflexivity.
Defined.

(** * Further properties of the code *)

(** ** When the network is reached *)

(** X3: a call sends a request exactly when an API key is configured, the
    name is one of the four registered tools, an arguments object came
    with the call and the query can be built from it, that is, [String]
    throws for none of the arguments that pass the filter.  It then sends
    one request and no more: a GET without headers to the image endpoint
    (search_images, get_image_by_id) or the video endpoint (search_videos,
    get_video_by_id), followed by "?" and the query of the effective
    arguments. *)
Theorem X3_one_request_exactly_when_dispatched
    network cfg name args (w : World) :
  let r := callTool network cfg name args w in
  (sent r.2 <> sent w <->
   apiKey cfg <> "" /\ registered name = true /\
   exists o q,
     args = Some o /\ queryString cfg (effective_params name o) = inr q) /\
  (sent r.2 = sent w \/
   exists t o q rq,
     tool_kind name = Some t /\ args = Some o /\
     queryString cfg (effective_params name o) = inr q /\
     sent r.2 = sent w ++ [rq] /\
     headers rq = [] /\
     url rq = endpoint cfg t +:+ "?" +:+ q).
Proof.
  intros r. subst r.
  destruct (decide (apiKey cfg = "")) as [Hk|Hk].
  { rewrite (callTool_unconfigured _ _ _ _ _ Hk). simpl.
    split; [|by left]. split; [done | by intros [? _]]. }
  destruct (callTool_cases network cfg name args w Hk)
    as [[msg Hc]|(t & o & q & Ht & -> & Hq & Hc)].
  - rewrite Hc. simpl. split; [|by left]. split; [done|].
    intros (_ & Hreg & o & q & -> & Hq). exfalso.
    apply tool_kind_registered in Hreg as [t Ht].
    rewrite (callTool_by_kind _ _ _ _ _ _ Ht) in Hc.
    pose proof (search_sends network cfg t (effective_params name o) q w Hk Hq)
      as Hsent.
    rewrite Hc in Hsent. simpl in Hsent. by apply snoc_neq_self in Hsent.
  - rewrite Hc, finished_sent. split.
    + split.
      * intros _. split; [done|]. split; [apply tool_kind_registered; eauto|].
        by exists o, q.
      * intros _ Heq. by apply (snoc_neq_self (sent w) (request_to (url_of_query cfg t q))).
    + right. by exists t, o, q, (request_to (url_of_query cfg t q)).
Qed.

(** X4: whatever is sent is logged.  A call that sends no request writes
    nothing to the diagnostic stream; a call that sends one writes first a
    line that contains the URL of that request, and after it at most one
    more line, which is there exactly when the answer has a status outside
    200..299 and then contains the body of that answer. *)
Theorem X4_every_request_is_logged network cfg name args (w : World) :
  let r := callTool network cfg name args w in
  (sent r.2 = sent w /\ stderr r.2 = stderr w) \/
  (exists rq line rest,
     sent r.2 = sent w ++ [rq] /\
     stderr r.2 = stderr w ++ line :: rest /\
     occurs_in (url rq) line /\
     match network rq with
     | Fulfilled resp =>
         if ok resp then rest = []
         else exists line2, rest = [line2] /\ occurs_in (text_body resp) line2
     | Rejected _ => rest = []
     end).
Proof.
  intros r. subst r.
  destruct (decide (apiKey cfg = "")) as [Hk|Hk].
  { rewrite (callTool_unconfigured _ _ _ _ _ Hk). by left. }
  destruct (callTool_cases network cfg name args w Hk)
    as [[msg Hc]|(t & o & q & Ht & -> & Hq & Hc)].
  { rewrite Hc. by left. }
  right. rewrite Hc. unfold finished.
  exists (request_to (url_of_query cfg t q)),
    (request_tag t +:+ url_of_query cfg t q).
  destruct (network _) as [e|resp].
  - exists []. repeat split. apply occurs_in_last.
  - destruct (ok resp).
    + exists []. repeat split. apply occurs_in_last.
    + exists [error_tag t +:+ text_body resp]. simpl.
      rewrite <- app_assoc. repeat split; [apply occurs_in_last|].
      eexists. split; [done|]. apply occurs_in_last.
Qed.

(** ** What a result text can be *)

(** X5: with an API key configured the text of a result is one of two
    things.  Either it begins with "Error: ", or it is the formatted JSON
    body of a 2xx answer to the request this very call sent.  It is the
    latter whenever a registered tool is called with an arguments object
    from which the query is built, the answer is 2xx and its body is JSON;
    the data is then returned as it is, behind no prefix. *)
Theorem X5_data_or_error_text network cfg name args (w : World) :
  apiKey cfg <> "" ->
  let r := callTool network cfg name args w in
  (exists s,
     returns_text s r /\
     ((exists msg, s = "Error: " +:+ msg) \/
      (exists rq resp,
         sent r.2 = sent w ++ [rq] /\ network rq = Fulfilled resp /\
         ok resp = true /\ json_pretty resp = inr s))) /\
  (forall t o q resp data,
     tool_kind name = Some t -> args = Some o ->
     queryString cfg (effective_params name o) = inr q ->
     network (request_to (url_of_query cfg t q)) = Fulfilled resp ->
     ok resp = true -> json_pretty resp = inr data ->
     returns_text data r).
Proof.
  intros Hk r. subst r. split.
  - destruct (callTool_cases network cfg name args w Hk)
      as [[msg Hc]|(t & o & q & Ht & -> & Hq & Hc)].
    { rewrite Hc. exists ("Error: " +:+ msg). split; [done|]. left. by exists msg. }
    rewrite Hc. unfold finished, returns_text.
    destruct (network _) as [e|resp] eqn:Hnet.
    { eexists. split; [done|]. left. by eexists. }
    destruct (ok resp) eqn:Hok.
    2:{ eexists. split; [done|]. left. by eexists. }
    destruct (json_pretty resp) as [e|data] eqn:Hjson.
    { eexists. split; [done|]. left. by eexists. }
    exists data. split; [done|]. right.
    exists (request_to (url_of_query cfg t q)), resp. done.
  - intros t o q resp data Ht -> Hq Hnet Hok Hjson.
    rewrite (callTool_by_kind _ _ _ _ _ _ Ht).
    rewrite (callTool_search _ _ _ _ _ _ Hk Hq).
    unfold finished, returns_text. by rewrite Hnet, Hok, Hjson.
Qed.

Lemma X5_witness :
  returns_text "{}"
    (callTool (answering no_hits) with_secret "get_image_by_id"
       (Some [("id", Js.Str "195893")]) quiet).
Proof.
  refine (proj2 (X5_data_or_error_text (answering no_hits) with_secret
                   "get_image_by_id" (Some [("id", Js.Str "195893")]) quiet _)
            Images [("id", Js.Str "195893")] "key=SECRET&id=195893" no_hits "{}"
            _ _ _ _ _ _);
    done.
Defined.

(** X6: a call that comes without an arguments object is answered with an
    error text, whatever the name, when an API key is configured: nothing
    is logged and nothing is sent.  For the four registered tools the text
    is the message of the TypeError the missing object causes. *)
Theorem X6_missing_arguments_object network cfg name (w : World) :
  apiKey cfg <> "" ->
  let r := callTool network cfg name None w in
  (exists msg, r = (Return (text_result ("Error: " +:+ msg)), w)) /\
  (name = "search_images" \/ name = "search_videos" ->
   r = (Return (text_result "Error: Cannot convert undefined or null to object"), w)) /\
  (name = "get_image_by_id" \/ name = "get_video_by_id" ->
   r = (Return (text_result
                  "Error: Cannot read properties of undefined (reading 'id')"), w)).
Proof.
  intros Hk r. subst r. split; [by apply callTool_no_arguments|].
  rewrite (callTool_configured _ _ _ _ _ Hk).
  split; intros [-> | ->]; reflexivity.
Qed.

Lemma X6_witness :
  callTool offline with_secret "search_videos" None quiet
  = (Return (text_result "Error: Cannot convert undefined or null to object"),
     quiet).
Proof.
  refine (proj1 (proj2 (X6_missing_arguments_object offline with_secret
                          "search_videos" quiet _)) _).
  - discriminate.
  - by right.
Defined.

(** ** The parameters on the wire *)

(** X7: a parameter is sent with an empty value only for an argument that
    is an array.  With a non-empty API key, every value in the text of a
    built query is a non-empty string, except where the argument of that
    name is an array (whose [String], the join of its elements, can be
    empty). *)
Theorem X7_only_arrays_are_sent_empty
    cfg (params : Js.Obj Js.Value) (q k v : string) :
  Js.wf params ->
  apiKey cfg <> "" ->
  queryString cfg params = inr q ->
  (k, v) ∈ URLSearchParams.parse q ->
  v <> "" \/ exists items, Js.get k params = Some (Js.Array items).
Proof.
  intros Hwf Hk Hq. apply queryString_built in Hq as (l & Hl & ->).
  rewrite parse_toString. intros Hin.
  apply (elem_get k v _ (wf_searchParams_of cfg l)) in Hin.
  rewrite (get_built_query cfg k params l Hwf Hl) in Hin.
  destruct (Js.get k params ≫= normalise) as [s|] eqn:Hn.
  - injection Hin as <-. destruct (decide (s = "")) as [->|Hne]; [|by left].
    right. destruct (Js.get k params) as [x|]; [|done]. simpl in Hn.
    unfold normalise in Hn. destruct (kept x) eqn:Hx; [|done].
    destruct (Js.String_ x) as [e|s] eqn:Hs; [done|]. injection Hn as ->.
    destruct (String_kept_empty x Hx Hs) as [items ->]. by exists items.
  - destruct (String.eqb "key" k); [|done]. injection Hin as <-. by left.
Qed.

Lemma X7_witness :
  "1920" <> "" \/
  exists items,
    Js.get "min_width" [("q", Js.Array []); ("min_width", Js.Number 1920)]
    = Some (Js.Array items).
Proof.
  refine (X7_only_arrays_are_sent_empty with_secret
            [("q", Js.Array []); ("min_width", Js.Number 1920)]
            "key=SECRET&q=&min_width=1920" "min_width" "1920" _ _ _ _).
  - apply (bool_decide_unpack (Js.wf _)). by vm_compute.
  - discriminate.
  - reflexivity.
  - apply (bool_decide_unpack (_ ∈ _)). by vm_compute.
Defined.

Lemma put_plain_new {V} k (v : V) (o : Js.Obj V) :
  Js.get k o = None -> Js.array_index k = None -> Js.put k v o = o ++ [(k, v)].
Proof. unfold Js.put. by intros -> ->. Qed.

(** Copying plain, fresh properties onto an object appends them in order. *)
Lemma assign_append {V} (acc : Js.Obj V) (src : list (string * V)) :
  Js.wf src -> plain_keys src ->
  (forall k, k ∈ Js.keys src -> Js.get k acc = None) ->
  Js.assign acc src = acc ++ src.
Proof.
  unfold Js.wf, plain_keys, Js.keys, Js.assign. revert acc.
  induction src as [|[k v] src IH]; intros acc Hwf Hplain Hfresh; csimpl.
  - by rewrite app_nil_r.
  - apply NoDup_cons in Hwf as [Hk Hwf]. apply Forall_cons in Hplain as [Hi Hplain].
    assert (Js.get k acc = None) as Hget by (apply Hfresh; apply elem_of_cons; by left).
    rewrite (put_plain_new k v acc Hget Hi).
    rewrite IH; [by rewrite <- app_assoc | done | done |].
    intros k' Hk'. rewrite (get_app_new k k' v acc Hget).
    destruct (String.eqb_spec k k') as [->|Hne]; [done|].
    apply Hfresh. apply elem_of_cons. by right.
Qed.

(** Spreading plain properties over an object that starts with "key":
    a property "key" among them overwrites the value in place, the others
    line up behind. *)
Lemma assign_behind_key (c : string) (acc src : list (string * string)) :
  Js.wf src -> plain_keys src ->
  Js.get "key" acc = None ->
  (forall k, k ∈ Js.keys src -> Js.get k acc = None) ->
  Js.assign (("key", c) :: acc) src =
  ("key", default c (Js.get "key" src)) :: acc ++ without "key" src.
Proof.
  unfold Js.wf, plain_keys, Js.keys, Js.assign. revert c acc.
  induction src as [|[k v] src IH]; intros c acc Hwf Hplain Hacc Hfresh; csimpl.
  - by rewrite app_nil_r.
  - apply NoDup_cons in Hwf as [Hk Hwf]. apply Forall_cons in Hplain as [Hi Hplain].
    apply get_None_keys in Hk. simpl in Hi, Hk.
    destruct (String.eqb_spec k "key") as [->|Hne].
    + change (Js.put "key" v (("key", c) :: acc)) with (("key", v) :: acc).
      rewrite IH; [|done|done|done|].
      * simpl. by rewrite Hk.
      * intros k' Hk'. apply Hfresh. apply elem_of_cons. by right.
    + assert (Js.get k acc = None) as Hget by (apply Hfresh; apply elem_of_cons; by left).
      assert (Js.put k v (("key", c) :: acc) = ("key", c) :: (acc ++ [(k, v)]))
        as ->.
      { rewrite put_plain_new; [done| |done].
        change (Js.get k (("key", c) :: acc))
          with (if String.eqb "key" k then Some c else Js.get k acc).
        destruct (String.eqb_spec "key" k); [congruence | done]. }
      rewrite IH; [|done|done| |].
      * by rewrite <- app_assoc.
      * rewrite (get_app_new k "key" v acc Hget).
        by destruct (String.eqb_spec k "key").
      * intros k' Hk'. rewrite (get_app_new k k' v acc Hget).
        destruct (String.eqb_spec k k') as [->|Hne'].
        -- apply get_None_keys in Hk. by apply Hk in Hk'.
        -- apply Hfresh. apply elem_of_cons. by right.
Qed.

Lemma plain_keys_kept_entries (params : Js.Obj Js.Value) (l : list (string * string)) :
  plain_keys params -> kept_entries params = inr l -> plain_keys l.
Proof.
  unfold plain_keys, Js.keys. revert l.
  induction params as [|[k v] p IH]; intros l.
  { intros _ [= <-]. done. }
  csimpl. intros [Hi Hp]%Forall_cons Hl.
  apply kept_entries_step in Hl as [[Hv Hl]|(s & rest & Hv & Hs & Hl & ->)];
    [by apply IH|].
  csimpl. apply Forall_cons. split; [done | by apply IH].
Qed.

(** X8: when no argument name is an array index and every kept argument
    has a string, the query lists the credential first and then the
    arguments that pass the filter, in the order the arguments object has
    them, each as its name and String of its value.  The credential is the
    configured API key, or the caller's own "key" argument when there is
    one that passes the filter; that argument is not listed a second time.
    The text of the query parses back to exactly this list. *)
Theorem X8_query_in_argument_order
    cfg (params : Js.Obj Js.Value) (l : list (string * string)) :
  Js.wf params ->
  plain_keys params ->
  kept_entries params = inr l ->
  let expected := ("key", credential cfg params) :: without "key" l in
  searchParams cfg params = inr expected /\
  exists q,
    queryString cfg params = inr q /\ URLSearchParams.parse q = expected.
Proof.
  intros Hwf Hplain Hl expected.
  assert (searchParams_of cfg l = expected) as Hsp.
  { subst expected. unfold searchParams_of, URLSearchParams.of_record,
      Js.entries, Js.fromEntries, credential.
    pose proof (wf_kept_entries _ _ Hwf Hl) as Hwfk.
    pose proof (plain_keys_kept_entries _ _ Hplain Hl) as Hpk.
    rewrite (assign_append [] l) by done. simpl.
    change (Js.put "key" (apiKey cfg) []) with [("key", apiKey cfg)].
    rewrite (assign_behind_key (apiKey cfg) [] l) by done.
    by rewrite (get_kept_entries "key" params l). }
  split.
  - unfold searchParams. by rewrite Hl, Hsp.
  - exists (URLSearchParams.toString (searchParams_of cfg l)).
    split; [by apply queryString_of_entries|]. by rewrite parse_toString.
Qed.

Lemma X8_witness :
  exists q,
    queryString with_secret
      [("q", Js.Str "red car"); ("lang", Js.Null); ("page", Js.Number 3)]
    = inr q /\
    URLSearchParams.parse q = [("key", "SECRET"); ("q", "red car"); ("page", "3")].
Proof.
  refine (proj2 (X8_query_in_argument_order with_secret
                   [("q", Js.Str "red car"); ("lang", Js.Null);
                    ("page", Js.Number 3)]
                   [("q", "red car"); ("page", "3")] _ _ _)).
  - apply (bool_decide_unpack (Js.wf _)). by vm_compute.
  - apply (bool_decide_unpack (plain_keys _)). by vm_compute.
  - reflexivity.
Defined.

Lemma get_without {V} k k' (l : list (string * V)) :
  Js.get k' (without k l) = if String.eqb k k' then None else Js.get k' l.
Proof.
  induction l as [|[k1 v1] l IH]; simpl; [by destruct (String.eqb k k')|].
  destruct (String.eqb_spec k1 k) as [->|Hne]; simpl.
  - rewrite IH. by destruct (String.eqb k k').
  - rewrite IH. destruct (String.eqb_spec k1 k') as [->|Hne']; [|done].
    destruct (String.eqb_spec k k'); [congruence | done].
Qed.

Lemma wf_without {V} k (l : list (string * V)) : Js.wf l -> Js.wf (without k l).
Proof.
  unfold Js.wf. induction l as [|[k1 v1] l IH]; [done|].
  intros [Hk1 Hl]%NoDup_cons. simpl. destruct (String.eqb k1 k); [auto|].
  apply NoDup_cons. split; [|auto].
  apply get_None_keys. rewrite get_without.
  apply get_None_keys in Hk1. simpl in *. rewrite Hk1.
  by destruct (String.eqb k k1).
Qed.

Lemma wf_NoDup {V} (l : list (string * V)) : Js.wf l -> NoDup l.
Proof. apply NoDup_fmap_1. Qed.

(** Two objects that read the same under every name hold the same
    properties. *)
Lemma same_reads_Permutation {V} (l1 l2 : list (string * V)) :
  Js.wf l1 -> Js.wf l2 -> (forall k, Js.get k l1 = Js.get k l2) -> l1 ≡ₚ l2.
Proof.
  intros H1 H2 Hget. apply NoDup_Permutation; [by apply wf_NoDup..|].
  intros [k v]. split; intros Hin.
  - apply get_Some_elem. rewrite <- Hget. by apply elem_get.
  - apply get_Some_elem. rewrite Hget. by apply elem_get.
Qed.

(** X9: for every arguments object whose kept arguments all have a string,
    the query holds the credential and the arguments that pass the filter,
    each once as its name and the String of its value, and nothing else.
    A caller's "key" argument that passes the filter takes the place of
    the configured API key.  The text of the query carries the same
    parameters, whatever bytes the values contain. *)
Theorem X9_query_contents
    cfg (params : Js.Obj Js.Value) (l : list (string * string)) :
  Js.wf params ->
  kept_entries params = inr l ->
  let expected := ("key", credential cfg params) :: without "key" l in
  exists p q,
    searchParams cfg params = inr p /\
    queryString cfg params = inr q /\
    p ≡ₚ expected /\
    URLSearchParams.parse q ≡ₚ expected /\
    (List.length (URLSearchParams.parse q) <= S (List.length params))%nat.
Proof.
  intros Hwf Hl expected.
  pose proof (wf_kept_entries _ _ Hwf Hl) as Hwfl.
  assert (Js.wf expected) as Hwfe.
  { subst expected. unfold Js.wf. csimpl. apply NoDup_cons. split.
    - apply get_None_keys. by rewrite get_without.
    - by apply wf_without. }
  assert (searchParams_of cfg l ≡ₚ expected) as Hperm.
  { apply same_reads_Permutation; [apply wf_searchParams_of | done |].
    intros k. rewrite (get_built_query cfg k params l Hwf Hl).
    subst expected. unfold credential.
    change (Js.get k (("key", default (apiKey cfg) (Js.get "key" params ≫= normalise))
                        :: without "key" l))
      with (if String.eqb "key" k
            then Some (default (apiKey cfg) (Js.get "key" params ≫= normalise))
            else Js.get k (without "key" l)).
    rewrite get_without, (get_kept_entries k params l) by done.
    destruct (String.eqb_spec "key" k) as [<-|Hne].
    - by destruct (Js.get "key" params ≫= normalise).
    - by destruct (Js.get k params ≫= normalise). }
  exists (searchParams_of cfg l), (URLSearchParams.toString (searchParams_of cfg l)).
  split; [unfold searchParams; by rewrite Hl|].
  split; [by apply queryString_of_entries|].
  rewrite parse_toString. split; [done|]. split; [done|].
  rewrite Hperm. subst expected. simpl. apply le_n_S.
  pose proof (length_kept_entries params l Hl) as Hlen.
  assert (List.length (without "key" l) <= List.length l)%nat; [|lia].
  clear. induction l as [|[k v] l IH]; [done|]. simpl.
  destruct (String.eqb k "key"); simpl; lia.
Qed.

Lemma X9_witness :
  exists p q,
    searchParams with_secret
      [("q", Js.Str "a&b"); ("3", Js.Bool false); ("key", Js.Str "MINE")]
    = inr p /\
    queryString with_secret
      [("q", Js.Str "a&b"); ("3", Js.Bool false); ("key", Js.Str "MINE")]
    = inr q /\
    p ≡ₚ [("key", "MINE"); ("q", "a&b"); ("3", "false")] /\
    URLSearchParams.parse q ≡ₚ [("key", "MINE"); ("q", "a&b"); ("3", "false")] /\
    (List.length (URLSearchParams.parse q) <= 4)%nat.
Proof.
  refine (X9_query_contents with_secret
            [("q", Js.Str "a&b"); ("3", Js.Bool false); ("key", Js.Str "MINE")]
            [("q", "a&b"); ("3", "false"); ("key", "MINE")] _ _).
  - apply (bool_decide_unpack (Js.wf _)). by vm_compute.
  - reflexivity.
Defined.

(** ** Lookup by id *)

Lemma queryString_of_id cfg (id : Js.Value) :
  queryString cfg [("id", id)] =
  if kept id then
    match Js.String_ id with
    | inl e => inl e
    | inr s =>
        inr ("key=" +:+ URLSearchParams.encode (apiKey cfg)
             +:+ "&id=" +:+ URLSearchParams.encode s)
    end
  else inr ("key=" +:+ URLSearchParams.encode (apiKey cfg)).
Proof.
  unfold queryString, searchParams. rewrite kept_entries_cons.
  destruct (kept id); [|done]. by destruct (Js.String_ id).
Qed.

(** X10: a lookup by id asks its endpoint for "key=<API key>&id=<id>",
    both form-encoded, where <id> is [String] of the id, and for nothing
    else: every other property of the arguments is ignored.  When the id
    is missing, undefined, null or the empty string, the request carries
    the credential alone, which asks the upstream for an unfiltered
    search.  When [String] of the id throws, nothing is sent and the error
    text comes back. *)
Theorem X10_lookup_by_id_request
    network cfg name (t : SearchTool) (o : Js.Obj Js.Value) (w : World) :
  apiKey cfg <> "" ->
  tool_kind name = Some t ->
  by_id name = true ->
  let id := default Js.Undefined (Js.get "id" o) in
  let r := callTool network cfg name (Some o) w in
  (kept id = false ->
   sent r.2
   = sent w ++ [request_to (endpoint cfg t +:+ "?" +:+ "key="
                            +:+ URLSearchParams.encode (apiKey cfg))]) /\
  (forall s, kept id = true -> Js.String_ id = inr s ->
   sent r.2
   = sent w ++ [request_to (endpoint cfg t +:+ "?" +:+ "key="
                            +:+ URLSearchParams.encode (apiKey cfg)
                            +:+ "&id=" +:+ URLSearchParams.encode s)]) /\
  (forall e, kept id = true -> Js.String_ id = inl e ->
   r = (Return (text_result ("Error: " +:+ Js.message e)), w)).
Proof.
  intros Hk Ht Hid id r. subst id r.
  rewrite (callTool_by_kind _ _ _ _ _ _ Ht). unfold effective_params.
  rewrite Hid.
  pose proof (queryString_of_id cfg (default Js.Undefined (Js.get "id" o))) as Hq.
  split; [|split].
  - intros Hkept. rewrite Hkept in Hq.
    by rewrite (search_sends _ _ _ _ _ _ Hk Hq).
  - intros s Hkept Hs. rewrite Hkept, Hs in Hq.
    by rewrite (search_sends _ _ _ _ _ _ Hk Hq).
  - intros e Hkept He. rewrite Hkept, He in Hq.
    by apply callTool_search_thrown.
Qed.

Lemma X10_witness :
  sent (callTool (answering no_hits) with_secret "get_video_by_id"
          (Some [("q", Js.Str "sea"); ("id", Js.Str "31377")]) quiet).2
  = [request_to "https://pixabay.com/api/videos/?key=SECRET&id=31377"].
Proof.
  refine (proj1 (proj2 (X10_lookup_by_id_request (answering no_hits) with_secret
            "get_video_by_id" Videos
            [("q", Js.Str "sea"); ("id", Js.Str "31377")] quiet _ _ _))
            "31377" _ _);
    done.
Defined.

(** ** The credential from the environment *)

(** X11: a tool call throws out of the handler precisely when the API key
    of the configuration is empty, whatever the tool, the arguments and
    the network; for the configuration literal of the constructor, that
    is exactly when PIXABAY_API_KEY is unset or the empty string. *)
Theorem X11_calls_throw_exactly_without_a_key
    network cfg (env : option string) name args (w : World) :
  (throws (callTool network cfg name args w) <-> apiKey cfg = "") /\
  (throws (callTool network (config_of_env env) name args w)
   <-> env = None \/ env = Some "").
Proof.
  assert (forall c, throws (callTool network c name args w) <-> apiKey c = "")
    as Hthrows.
  { intros c. destruct (decide (apiKey c = "")) as [Hk|Hk].
    - rewrite (callTool_unconfigured _ _ _ _ _ Hk). split; [done|].
      intros _. by eexists.
    - rewrite (callTool_configured _ _ _ _ _ Hk). unfold try_catch.
      split; [|done]. intros [e He].
      by destruct (dispatch network c name args w) as [[a|e'] w']. }
  split; [apply Hthrows|].
  rewrite Hthrows. destruct env as [k|]; simpl.
  - split; [intros ->; by right | by intros [|[= ->]]].
  - split; [by left | done].
Qed.

(** ** The bytes of the query *)

Lemma all_bytes_app P (a b : string) :
  all_bytes P (a +:+ b) = all_bytes P a && all_bytes P b.
Proof.
  induction a as [|c a IH]; simpl; [done|].
  rewrite IH. by rewrite andb_assoc.
Qed.

Lemma encode_byte_query_bytes (c : ascii) :
  all_bytes query_byte (URLSearchParams.encode_byte c) = true.
Proof. by destruct c as [[] [] [] [] [] [] [] []]. Qed.

Lemma encode_query_bytes (s : string) :
  all_bytes query_byte (URLSearchParams.encode s) = true.
Proof.
  induction s as [|c s IH]; [done|]. simpl.
  by rewrite all_bytes_app, encode_byte_query_bytes, IH.
Qed.

Lemma toString_query_bytes (p : URLSearchParams.t) :
  all_bytes query_byte (URLSearchParams.toString p) = true.
Proof.
  unfold URLSearchParams.toString.
  assert (forall e, all_bytes query_byte (URLSearchParams.pair_text e) = true)
    as Hpair.
  { intros e. unfold URLSearchParams.pair_text.
    by rewrite !all_bytes_app, !encode_query_bytes. }
  induction p as [|e p IH]; [done|].
  destruct p as [|e' p]; [apply Hpair|].
  change (URLSearchParams.join "&" (URLSearchParams.pair_text <$> e :: e' :: p))
    with (URLSearchParams.pair_text e +:+ "&"
          +:+ URLSearchParams.join "&" (URLSearchParams.pair_text <$> e' :: p)).
  by rewrite !all_bytes_app, Hpair, IH.
Qed.

(** X12: whatever bytes the argument names and values and the API key
    contain, the text of a built query is made of ASCII letters and digits
    and the characters * - . _ % + & = only: no space, no control
    character, no quote, no byte above 127 reaches the URL unencoded. *)
Theorem X12_query_text_is_url_safe cfg (params : Js.Obj Js.Value) (q : string) :
  queryString cfg params = inr q ->
  all_bytes query_byte q = true /\ has_char " " q = false.
Proof.
  intros Hq. apply queryString_built in Hq as (l & _ & ->).
  assert (all_bytes query_byte
            (URLSearchParams.toString (searchParams_of cfg l)) = true) as Hall
    by apply toString_query_bytes.
  split; [done|]. revert Hall.
  generalize (URLSearchParams.toString (searchParams_of cfg l)). clear.
  intros s. induction s as [|c s IH]; [done|]. simpl.
  intros [Hc Hs]%andb_prop. rewrite (IH Hs), orb_false_r.
  destruct (Ascii.eqb_spec c " ") as [->|]; [done | done].
Qed.

Lemma X12_witness :
  all_bytes query_byte "key=SECRET&q=a+%22b%22" = true /\
  has_char " " "key=SECRET&q=a+%22b%22" = false.
Proof.
  refine (X12_query_text_is_url_safe with_secret
            [("q", Js.Str (String "a" (String " " (String (ascii_of_nat 34)
                     (String "b" (String (ascii_of_nat 34) EmptyString))))))]
            "key=SECRET&q=a+%22b%22" _).
  reflexivity.
Defined.
